(** * foundation.v1: registry, file-system monitoring and file utilities

    A shallow embedding of
    - [services/registering/registry.py] (class [Registry]),
    - [services/file_system_monitoring/file_system_observer.py]
      ([FileSystemObserverConfiguration], [FileSystemObserver]),
    - [services/file_system_monitoring/file_system_change_processor.py]
      ([FileSystemChangeProcessor]),
    - [universal_utilities/filesystem_related/general_filesystem_utilities.py]
      ([copy_file]),
    together with the part of [pathlib] (POSIX flavour) these use. *)

From Stdlib Require Import Ascii String.
From stdpp Require Import base option list strings gmap.

Open Scope string_scope.

(** ** pathlib.PurePosixPath

    A path object is kept by [pathlib] in parsed form: a root (empty, one
    slash, or two slashes) and the list of its components. *)
Module Pathlib.

Record Path : Type := mkPath { root : string; parts : list string }.

#[global] Instance Path_eq_dec : EqDecision Path.
Proof. solve_decision. Defined.

Definition sep : ascii := "/"%char.

(** [s.split("/")]: the pieces between slashes, empty pieces included. *)
Fixpoint split (s : string) : list string :=
  match s with
  | EmptyString => [""]
  | String c s' =>
      if decide (c = sep) then "" :: split s'
      else match split s' with
           | [] => [String c ""]
           | w :: ws => String c w :: ws
           end
  end.

(** ["/".join(l)] *)
Fixpoint join (l : list string) : string :=
  match l with
  | [] => ""
  | [x] => x
  | x :: xs => x ++ String sep (join xs)
  end.

(** [posixpath.splitroot], without the drive, which is always empty. *)
Definition splitroot (p : string) : string * string :=
  match p with
  | String c1 p1 =>
      if decide (c1 = sep) then
        match p1 with
        | String c2 p2 =>
            if decide (c2 = sep) then
              match p2 with
              | String c3 _ =>
                  if decide (c3 = sep) then ("/", p1) else ("//", p2)
              | EmptyString => ("//", p2)
              end
            else ("/", p1)
        | EmptyString => ("/", p1)
        end
      else ("", p)
  | EmptyString => ("", p)
  end.

Definition kept (x : string) : bool :=
  bool_decide (x ≠ "") && bool_decide (x ≠ ".").

(** [Path(s)] for a string [s] *)
Definition parse (s : string) : Path :=
  let '(r, rel) := splitroot s in
  mkPath r (filter (λ x, kept x = true) (split rel)).

(** [str(p)] *)
Definition to_str (p : Path) : string :=
  let s := root p ++ join (parts p) in
  if decide (s = "") then "." else s.

(** [p / s]: a rooted right operand replaces the left one. *)
Definition joinpath (p : Path) (s : string) : Path :=
  let q := parse s in
  if decide (root q = "") then mkPath (root p) (parts p ++ parts q) else q.

Fixpoint has_sep (s : string) : bool :=
  match s with
  | EmptyString => false
  | String c s' => bool_decide (c = sep) || has_sep s'
  end.

(** The paths [pathlib] can build: what [parse] returns. *)
Definition wf_part (x : string) : Prop := kept x = true ∧ has_sep x = false.

Definition wf (p : Path) : Prop :=
  (root p = "" ∨ root p = "/" ∨ root p = "//") ∧ Forall wf_part (parts p).

(** A text that does not begin with a slash. *)
Definition no_leading_sep (s : string) : Prop :=
  match s with
  | String c _ => c ≠ sep
  | EmptyString => True
  end.

End Pathlib.

Import Pathlib.

(** ** Python values shared by the modules below *)

(** An argument of type [Union[str, Path]]. *)
Inductive path_like : Type :=
  | PStr (s : string)
  | PPath (p : Path).

(** [str(x)] *)
Definition str_of (x : path_like) : string :=
  match x with
  | PStr s => s
  | PPath p => to_str p
  end.

(** [Path(x)]: a string is parsed, a path object is taken as it is. *)
Definition Path_of (x : path_like) : Path :=
  match x with
  | PStr s => parse s
  | PPath p => p
  end.

(** The exceptions that the modelled functions raise or pass on. *)
Inductive exn : Type :=
  | KeyError (key : string)
  | FileNotFoundError (msg : string)
  | FileExistsError (msg : string)
  | OSError (msg : string).

Inductive result (A : Type) : Type :=
  | Ok (a : A)
  | Raise (e : exn).
Arguments Ok {A} a.
Arguments Raise {A} e.

(** Truth value of an [Optional[str]]: [None] and [""] are false. *)
Definition truthy (o : option string) : bool :=
  match o with
  | None => false
  | Some s => bool_decide (s ≠ "")
  end.

(** The state of the file system as [Path.exists] reports it. *)
Definition FS : Type := Path → bool.

(** The path-like values whose path object, if they hold one, is one that
    [pathlib] can build. *)
Definition wf_like (x : path_like) : Prop :=
  match x with
  | PStr _ => True
  | PPath p => wf p
  end.

(** ** file_system_observer.py *)
Module Observer.

(** Strings stand for Python's by their UTF-8 bytes, as string literals do
    here. The white space that [str.isspace] and [str.strip] know, by code
    point: U+0009 to U+000D, U+001C to U+0020, U+0085, U+00A0, U+1680,
    U+2000 to U+200A, U+2028, U+2029, U+202F, U+205F and U+3000. *)
Definition white_space : list N :=
  [9; 10; 11; 12; 13; 28; 29; 30; 31; 32; 133; 160; 5760;
   8192; 8193; 8194; 8195; 8196; 8197; 8198; 8199; 8200; 8201; 8202;
   8232; 8233; 8239; 8287; 12288]%N.

(** The UTF-8 bytes of a code point. *)
Definition utf8 (cp : N) : list ascii :=
  (if cp <? 128 then [ascii_of_N cp]
   else if cp <? 2048 then
     [ascii_of_N (192 + cp / 64); ascii_of_N (128 + cp mod 64)]
   else if cp <? 65536 then
     [ascii_of_N (224 + cp / 4096); ascii_of_N (128 + (cp / 64) mod 64);
      ascii_of_N (128 + cp mod 64)]
   else
     [ascii_of_N (240 + cp / 262144); ascii_of_N (128 + (cp / 4096) mod 64);
      ascii_of_N (128 + (cp / 64) mod 64); ascii_of_N (128 + cp mod 64)])%N.

(** The byte sequences that are a white space character, and the same
    read from the end. *)
Definition space_codes : list (list ascii) := map utf8 white_space.

Definition space_codes_reversed : list (list ascii) := map reverse space_codes.

(** [l] without the leading [w], when it begins with [w]. *)
Fixpoint without_prefix (w l : list ascii) : option (list ascii) :=
  match w, l with
  | [], _ => Some l
  | a :: w', b :: l' => if decide (a = b) then without_prefix w' l' else None
  | _ :: _, [] => None
  end.

(** [l] without its first character, when that is one of [codes]. *)
Definition after_code (codes : list (list ascii)) (l : list ascii) :
    option (list ascii) :=
  head (omap (λ w, without_prefix w l) codes).

(** Characters of [codes] are dropped from the front of [l] for as long as
    there are some; [fuel] bounds their number. *)
Fixpoint drop_codes (codes : list (list ascii)) (fuel : nat) (l : list ascii) :
    list ascii :=
  match fuel with
  | O => l
  | S fuel' =>
      match after_code codes l with
      | Some rest => drop_codes codes fuel' rest
      | None => l
      end
  end.

(** [s.lstrip()] and [s.rstrip()], on bytes. *)
Definition lstrip_bytes (l : list ascii) : list ascii :=
  drop_codes space_codes (length l) l.

Definition rstrip_bytes (l : list ascii) : list ascii :=
  reverse (drop_codes space_codes_reversed (length l) (reverse l)).

Definition lstrip (s : string) : string :=
  string_of_list_ascii (lstrip_bytes (list_ascii_of_string s)).

Definition rstrip (s : string) : string :=
  string_of_list_ascii (rstrip_bytes (list_ascii_of_string s)).

(** [s.strip()] *)
Definition strip (s : string) : string :=
  string_of_list_ascii (rstrip_bytes (lstrip_bytes (list_ascii_of_string s))).

(** The first argument of the constructor:
    [Union[str, Path, Sequence[Union[str, Path]]]]. *)
Inductive directories_arg : Type :=
  | One (x : path_like)
  | Many (l : list path_like).

Record FileSystemObserverConfiguration : Type := mkConfiguration {
  directories_to_observe : list Path;
  include_patterns : list string;
  exclude_patterns : list string;
  processing_lock_file : option string
}.

(** [FileSystemObserverConfiguration.__init__] *)
Definition init (directories_to_observe : directories_arg)
    (include_patterns exclude_patterns : list string)
    (processing_lock_file : option string) : FileSystemObserverConfiguration :=
  let directories_to_observe :=
    match directories_to_observe with
    | One x => [x]
    | Many l => l
    end in
  {| directories_to_observe :=
       map (λ directory, parse (str_of directory)) directories_to_observe;
     include_patterns := map strip include_patterns;
     exclude_patterns := map strip exclude_patterns;
     processing_lock_file := processing_lock_file |}.

Record FileSystemObserver : Type := mkObserver {
  config : FileSystemObserverConfiguration;
  _observing : bool;
  _directories : list Path
}.

(** [FileSystemObserver.__init__] *)
Definition new (config : FileSystemObserverConfiguration) : FileSystemObserver :=
  {| config := config;
     _observing := false;
     _directories := directories_to_observe config |}.

(** [FileSystemObserver.is_lock_file_present], reading the file system [fs]. *)
Definition is_lock_file_present (self : FileSystemObserver) (fs : FS) : bool :=
  if negb (truthy (processing_lock_file (config self))) then false
  else
    match processing_lock_file (config self) with
    | Some name => existsb (λ directory, fs (joinpath directory name)) (_directories self)
    | None => false
    end.

(** [FileSystemObserver.stop] *)
Definition stop (self : FileSystemObserver) : FileSystemObserver :=
  {| config := config self; _observing := false; _directories := _directories self |}.

End Observer.

(** ** file_system_change_processor.py *)
Module Processor.
Import Observer.

(** [watchfiles.Change] *)
Inductive Change : Type := added | modified | deleted.

#[global] Instance Change_eq_dec : EqDecision Change.
Proof. solve_decision. Defined.

#[global] Instance Change_countable : Countable Change.
Proof.
  refine (inj_countable'
    (λ c, match c with added => 1 | modified => 2 | deleted => 3 end)%nat
    (λ n, match n with 1 => added | 2 => modified | _ => deleted end)%nat _).
  by intros [].
Defined.

(** One change: its kind and the path, a string, that the watcher reports. *)
Definition event : Type := Change * string.

(** The responder protocol. What [_handle_directory_change] does is the
    application's business; the processor's calls of it are recorded. *)
Record FileSystemChangeResponder : Type := mkResponder {
  _should_process_change : string → bool
}.

Inductive call : Type :=
  | _handle_directory_change (changes : gset event).

Record FileSystemChangeProcessor : Type := mkProcessor {
  file_system_change_responder : FileSystemChangeResponder;
  observer : FileSystemObserver
}.

(** [FileSystemChangeProcessor.__init__] *)
Definition new (observer_configuration : FileSystemObserverConfiguration)
    (file_system_change_responder : FileSystemChangeResponder) :
    FileSystemChangeProcessor :=
  {| file_system_change_responder := file_system_change_responder;
     observer := Observer.new observer_configuration |}.

(** What the watcher delivers at one step of [observe]: the batch, whether
    [stop] has been called by then, and, since the file system is read
    again for every event of the batch, the state [fs_at e] in which it is
    found when event [e] is tested. *)
Record Arrival : Type := mkArrival {
  stop_requested : bool;
  changes : gset event;
  fs_at : event → FS
}.

(** [FileSystemObserver.observe]: the batches are passed on until the
    stream ends or [_observing] is found false. *)
Fixpoint observe (stream : list Arrival) : list Arrival :=
  match stream with
  | [] => []
  | a :: stream' => if stop_requested a then [] else a :: observe stream'
  end.

(** The condition of the set comprehension in [process_changes]. *)
Definition retains (self : FileSystemChangeProcessor) (a : Arrival) (e : event) : bool :=
  let '(change, path) := e in
  _should_process_change (file_system_change_responder self) path
  && bool_decide (Some path ≠ processing_lock_file (config (observer self)))
  && negb (is_lock_file_present (observer self) (fs_at a e)).

(** The set [changes_to_process] built for one batch. *)
Definition changes_to_process (self : FileSystemChangeProcessor) (a : Arrival) : gset event :=
  filter (λ e, retains self a e = true) (changes a).

(** One turn of the loop of [process_changes]: the calls made for a batch. *)
Definition process_batch (self : FileSystemChangeProcessor) (a : Arrival) : list call :=
  let changes_to_process := changes_to_process self a in
  if decide (changes_to_process ≠ ∅)
  then [_handle_directory_change changes_to_process]
  else [].

(** [FileSystemChangeProcessor.process_changes]: all the calls made while
    the observer delivers [stream]. *)
Definition process_changes (self : FileSystemChangeProcessor) (stream : list Arrival) : list call :=
  concat (map (process_batch self) (observe stream)).

(** [FileSystemChangeProcessor.stop_observing] *)
Definition stop_observing (self : FileSystemChangeProcessor) : FileSystemChangeProcessor :=
  {| file_system_change_responder := file_system_change_responder self;
     observer := Observer.stop (observer self) |}.

End Processor.

(** ** registry.py *)
Module Registry.

(** A [uuid.UUID], known by its canonical text (what [str] gives). *)
Record UUID : Type := mkUUID { uuid_text : string }.

(** The argument of [get_data]: [Union[str, uuid.UUID]]. *)
Inductive identifier : Type :=
  | IdStr (s : string)
  | IdUUID (u : UUID).

(** [str(identifier)] *)
Definition str_of_identifier (identifier : identifier) : string :=
  match identifier with
  | IdStr s => s
  | IdUUID u => uuid_text u
  end.

Section WithObjects.

(** The registered objects ([Any]); equality on [Obj] is object identity. *)
Context {Obj : Type}.

(** The two class-level dictionaries. *)
Record Registry : Type := mkRegistry {
  _data : gmap string Obj;
  _aliases : gmap string string
}.

(** A class method: it reads and writes the dictionaries and returns a
    value or raises. *)
Definition method (A : Type) : Type := Registry → result A * Registry.

Definition ret {A} (a : A) : method A := λ cls, (Ok a, cls).

Definition raise {A} (e : exn) : method A := λ cls, (Raise e, cls).

Definition bind {A B} (m : method A) (k : A → method B) : method B :=
  λ cls, match m cls with
         | (Ok a, cls') => k a cls'
         | (Raise e, cls') => (Raise e, cls')
         end.

Definition modify (f : Registry → Registry) : method unit :=
  λ cls, (Ok tt, f cls).

Definition read {A} (f : Registry → A) : method A :=
  λ cls, (Ok (f cls), cls).

(** [d[key]] on the data dictionary. *)
Definition data_getitem (key : string) : method Obj :=
  λ cls, match _data cls !! key with
         | Some o => (Ok o, cls)
         | None => (Raise (KeyError key), cls)
         end.

(** [Registry.register_data]; [uuid4] is the identifier that
    [uuid.uuid4()] draws in this call. *)
Definition register_data (data : Obj) (alias : option string) (uuid4 : UUID) :
    method string :=
  let data_id := uuid_text uuid4 in
  bind (modify (λ cls, mkRegistry (<[data_id := data]> (_data cls)) (_aliases cls))) (λ _,
  bind (if truthy alias
        then match alias with
             | Some alias =>
                 modify (λ cls, mkRegistry (_data cls) (<[alias := data_id]> (_aliases cls)))
             | None => ret tt
             end
        else ret tt) (λ _,
  ret data_id)).

(** [Registry.get_data] *)
Definition get_data (identifier : identifier) : method Obj :=
  let data_id := str_of_identifier identifier in
  bind (read (λ cls, match _aliases cls !! data_id with
                     | Some target => target
                     | None => data_id
                     end)) (λ data_id,
  data_getitem data_id).

(** What is expected of [uuid.uuid4()]: the identifier it draws is in use
    nowhere, neither as a key of one of the dictionaries nor as the alias
    given in the same call. *)
Definition fresh (cls : Registry) (alias : option string) (uuid4 : UUID) : Prop :=
  (uuid_text uuid4 ∉ dom (_data cls))
  ∧ (uuid_text uuid4 ∉ dom (_aliases cls))
  ∧ alias ≠ Some (uuid_text uuid4).

(** [Registry.clear] *)
Definition clear : method unit :=
  modify (λ _, mkRegistry ∅ ∅).

End WithObjects.

Arguments Registry Obj : clear implicits.
Arguments method Obj A : clear implicits.

End Registry.

(** ** general_filesystem_utilities.py *)
Module Filesystem.

(** [Path.parent]: the path without its last component; a path without
    components is its own parent. *)
Definition parent (p : Path) : Path :=
  match parts p with
  | [] => p
  | _ => mkPath (root p) (removelast (parts p))
  end.

(** What [logger.error] is given in the handler of [copy_file]. *)
Record log_entry : Type := mkLogEntry {
  log_source : string;
  log_destination : string;
  log_error : exn
}.

Section WithFileSystem.

(** The file system with its operations, taken as they come:
    [Path.exists], [Path.mkdir(parents=True, exist_ok=True)] and
    [shutil.copy2]. The last two may fail, and may have changed the file
    system when they do. *)
Context {World : Type}.
Variable path_exists : Path → World → bool.
Variable mkdir_parents : Path → World → result unit * World.
Variable copy2 : Path → Path → World → result unit * World.

(** The body of the [try] block of [copy_file]. *)
Definition copy_file_body (source_path destination_path : Path) (overwrite : bool)
    (w : World) : result unit * World :=
  if negb (path_exists source_path w) then
    (Raise (FileNotFoundError ("Source file does not exist: " ++ to_str source_path)), w)
  else if path_exists destination_path w && negb overwrite then
    (Raise (FileExistsError ("Destination file already exists: " ++ to_str destination_path)), w)
  else
    match mkdir_parents (parent destination_path) w with
    | (Ok _, w1) => copy2 source_path destination_path w1
    | (Raise e, w1) => (Raise e, w1)
    end.

(** [copy_file]: the body, and the handler that logs and raises again.
    The state is the file system and the log. *)
Definition copy_file (source_path destination_path : path_like) (overwrite : bool)
    (st : World * list log_entry) : result unit * (World * list log_entry) :=
  let '(w, log) := st in
  let source_path := Path_of source_path in
  let destination_path := Path_of destination_path in
  match copy_file_body source_path destination_path overwrite w with
  | (Ok _, w') => (Ok tt, (w', log))
  | (Raise e, w') =>
      (Raise e,
       (w', (log ++ [mkLogEntry (to_str source_path) (to_str destination_path) e])%list))
  end.

End WithFileSystem.

(** A small file system to run [copy_file] on: the set of the paths that
    exist. Making the parents adds them; copying adds the destination, and
    fails on a source that is not there. *)
Definition toy_exists (p : Path) (w : gset string) : bool :=
  bool_decide (to_str p ∈ w).

Definition toy_mkdir (p : Path) (w : gset string) : result unit * gset string :=
  (Ok tt, {[to_str p]} ∪ w).

Definition toy_copy2 (src dst : Path) (w : gset string) : result unit * gset string :=
  if toy_exists src w then (Ok tt, {[to_str dst]} ∪ w)
  else (Raise (FileNotFoundError (to_str src)), w).

End Filesystem.

(** ** The retained set in the words of the specification *)
Module Specified.
Import Observer Processor.

(** Follows the words of the specification ("is not the lock-file path
    itself", "a batch containing the lock-file path itself"): the paths of
    the lock file, one in each watched directory, as the watcher reports
    them. *)
Definition lock_file_paths (self : FileSystemObserver) : list string :=
  match processing_lock_file (config self) with
  | Some name =>
      map (λ directory, to_str (joinpath directory name)) (_directories self)
  | None => []
  end.

(** Follows the words of the specification: the events of the batch that
    pass the responder's predicate, are not on a lock-file path, and arrive
    while no lock file is present. *)
Definition retained_as_specified (self : FileSystemChangeProcessor) (a : Arrival) :
    gset event :=
  filter (λ e, _should_process_change (file_system_change_responder self) e.2 = true
               ∧ (e.2 ∉ lock_file_paths (observer self))
               ∧ is_lock_file_present (observer self) (fs_at a e) = false)
         (changes a).

End Specified.

(** ** The scenario of the specification

    A processor that watches [/tmp/proj] with the lock-file name ["LOCK"],
    and the batch in which [a.txt] and the lock file are both modified. *)
Module Scenario.
Import Observer Processor.

Definition proj_config : FileSystemObserverConfiguration :=
  Observer.init (One (PStr "/tmp/proj")) [] [] (Some "LOCK").

Definition a_txt : event := (modified, "/tmp/proj/a.txt").

Definition lock_event : event := (modified, "/tmp/proj/LOCK").

Definition batch : gset event := {[a_txt; lock_event]}.

(** A responder that accepts every path. *)
Definition accept_all : FileSystemChangeResponder :=
  mkResponder (λ _, true).

(** A responder that accepts every path but that of the lock file. *)
Definition accept_non_lock : FileSystemChangeResponder :=
  mkResponder (λ path, bool_decide (path ≠ "/tmp/proj/LOCK")).

(** The file system without the lock file, and with it. *)
Definition unlocked_fs : FS :=
  λ p, bool_decide (to_str p ∈ ["/tmp/proj"; "/tmp/proj/a.txt"]).

Definition locked_fs : FS :=
  λ p, bool_decide (to_str p ∈ ["/tmp/proj"; "/tmp/proj/a.txt"; "/tmp/proj/LOCK"]).

Definition arrival (fs : FS) : Arrival :=
  mkArrival false batch (λ _, fs).

(** The batch of the lock-file event alone, with no lock file in the
    file system. *)
Definition lock_only : Arrival :=
  mkArrival false {[lock_event]} (λ _, unlocked_fs).

(** Two identifiers as [uuid4] draws them, and a registry of strings. *)
Definition uuid_a : Registry.UUID :=
  Registry.mkUUID "0b5e1c3a-7d2f-4c7e-9a61-5f0e8d3b2a10".

Definition uuid_b : Registry.UUID :=
  Registry.mkUUID "c4a9e2d7-18b3-4f60-8e25-9d7a6b1c0f33".

Definition empty_registry : Registry.Registry string :=
  Registry.mkRegistry ∅ ∅.

End Scenario.

(** ** registry.py, continued: sequences of calls, and [Registerable] *)
Module Registering.
Import Registry.

(** A call of one of the class methods of [Registry]. *)
Inductive op (Obj : Type) : Type :=
  | Register (data : Obj) (alias : option string) (uuid4 : UUID)
  | Get (identifier : identifier)
  | Clear.
Arguments Register {Obj} data alias uuid4.
Arguments Get {Obj} identifier.
Arguments Clear {Obj}.

(** The registry after a call, whether the call returned or raised. *)
Definition step {Obj : Type} (cls : Registry Obj) (o : op Obj) : Registry Obj :=
  match o with
  | Register data alias uuid4 => (register_data data alias uuid4 cls).2
  | Get identifier => (get_data identifier cls).2
  | Clear => (clear cls).2
  end.

(** The registry after a sequence of calls, from the two empty
    dictionaries of the class body. *)
Definition run {Obj : Type} (ops : list (op Obj)) : Registry Obj :=
  foldl step (mkRegistry ∅ ∅) ops.

(** Every alias stands for a key of the data. *)
Definition aliases_resolve {Obj : Type} (cls : Registry Obj) : Prop :=
  ∀ name target, _aliases cls !! name = Some target → is_Some (_data cls !! target).

(** A class derived from [Registerable]: its name and its class attribute
    [should_register_by_default]. *)
Record Class : Type := mkClass {
  __name__ : string;
  should_register_by_default : bool
}.

(** The attributes of an instance. The instance itself is known by its
    reference, which is what the registry stores. *)
Record Registerable : Type := mkRegisterable {
  __class__ : Class;
  _id : option string
}.

(** What [register] gives: the identifier, its own [RuntimeError], or an
    exception of the registry passed on. *)
Inductive registered : Type :=
  | Returned (id : string)
  | RuntimeError (msg : string)
  | Passed (e : exn).

(** The property [is_registered] *)
Definition is_registered (self : Registerable) : bool :=
  bool_decide (_id self ≠ None).

(** The property [id] *)
Definition id (self : Registerable) : option string := _id self.

(** How an [Optional[str]] is shown in an f-string. *)
Definition show_optional (o : option string) : string :=
  match o with
  | Some s => s
  | None => "None"
  end.

(** [Registerable.register], for the instance with reference [ref], on
    the default registry. *)
Definition register (ref : nat) (self : Registerable) (uuid4 : UUID)
    (cls : Registry nat) : registered * Registerable * Registry nat :=
  if is_registered self then
    (RuntimeError ("Component already registered with ID: " ++ show_optional (id self)),
     self, cls)
  else
    match register_data ref (Some (__name__ (__class__ self))) uuid4 cls with
    | (Ok data_id, cls') =>
        (Returned data_id, mkRegisterable (__class__ self) (Some data_id), cls')
    | (Raise e, cls') => (Passed e, self, cls')
    end.

(** [Registerable._register_on_creation_if_needed] *)
Definition _register_on_creation_if_needed (ref : nat) (self : Registerable)
    (should_register : option bool) (uuid4 : UUID) (cls : Registry nat) :
    option registered * Registerable * Registry nat :=
  let should_perform_registration :=
    match should_register with
    | Some b => b
    | None => should_register_by_default (__class__ self)
    end in
  if should_perform_registration then
    let '(r, self', cls') := register ref self uuid4 cls in (Some r, self', cls')
  else (None, self, cls).

(** [Registerable.__init__] for a new instance of class [c]. *)
Definition init (c : Class) (ref : nat) (should_register : option bool)
    (uuid4 : UUID) (cls : Registry nat) :
    option registered * Registerable * Registry nat :=
  _register_on_creation_if_needed ref (mkRegisterable c None) should_register uuid4 cls.

End Registering.

(** ** Ends of a string *)
Module Ends.

(** [s[:1]] and [s[-1:]], as characters. *)
Definition first_char (s : string) : option ascii :=
  match s with
  | String c _ => Some c
  | EmptyString => None
  end.

Fixpoint last_char (s : string) : option ascii :=
  match s with
  | EmptyString => None
  | String c EmptyString => Some c
  | String _ s' => last_char s'
  end.

(** No white space character at either end. *)
Definition trimmed (s : string) : Prop :=
  ∀ cp, cp ∈ Observer.white_space →
    ¬ (Observer.utf8 cp `prefix_of` list_ascii_of_string s)
    ∧ ¬ (Observer.utf8 cp `suffix_of` list_ascii_of_string s).

End Ends.

(** ** general_filesystem_utilities.py, continued *)
Module Utilities.
Import Filesystem.

(** The lines that the functions below give to [logger.error]. *)
Inductive log_line : Type :=
  | CopyFileError (entry : log_entry)
  | RemoveDirectoryError (directory_path : string) (e : exn)
  | CopyDirectoryError (source_path destination_path : string) (e : exn)
  | RemoveExistingError (new_path : string) (e : exn)
  | RenameError (old_path new_path : string) (e : exn).

(** The exceptions caught by [except OSError]: of those modelled, all but
    [KeyError]. *)
Definition is_OSError (e : exn) : bool :=
  match e with
  | KeyError _ => false
  | FileNotFoundError _ | FileExistsError _ | OSError _ => true
  end.

Section WithFileSystem.

(** The file system and its operations, taken as they come: [Path.exists],
    [Path.is_file], [Path.mkdir(parents=True, exist_ok=True)],
    [shutil.copy2], [shutil.rmtree(path, ignore_errors)],
    [shutil.copytree(src, dst, ignore, dirs_exist_ok)] and [Path.rename]. *)
Context {World : Type}.
Variable path_exists : Path → World → bool.
Variable is_file : Path → World → bool.
Variable mkdir_parents : Path → World → result unit * World.
Variable copy2 : Path → Path → World → result unit * World.
Variable rmtree : path_like → bool → World → result unit * World.
Variable copytree :
  path_like → path_like → option (list string) → bool → World → result unit * World.
Variable rename : Path → Path → World → result unit * World.

(** A function of the module: it works on the file system and the log,
    and returns or raises. *)
Definition action (A : Type) : Type :=
  World * list log_line → result A * (World * list log_line).

Definition ret {A} (a : A) : action A := λ st, (Ok a, st).

Definition raise {A} (e : exn) : action A := λ st, (Raise e, st).

Definition bind {A B} (m : action A) (k : A → action B) : action B :=
  λ st, match m st with
        | (Ok a, st') => k a st'
        | (Raise e, st') => (Raise e, st')
        end.

(** An operation of the file system. *)
Definition prim {A} (f : World → result A * World) : action A :=
  λ st, let '(r, w') := f st.1 in (r, (w', st.2)).

(** A question to the file system. *)
Definition ask {A} (f : World → A) : action A := λ st, (Ok (f st.1), st).

(** [logger.error] *)
Definition log (line : log_line) : action unit :=
  λ st, (Ok tt, (st.1, (st.2 ++ [line])%list)).

(** [try: m except Exception as e: handler e] *)
Definition try_except {A} (m : action A) (handler : exn → action A) : action A :=
  λ st, match m st with
        | (Ok a, st') => (Ok a, st')
        | (Raise e, st') => handler e st'
        end.

(** [try: m except OSError: handler] *)
Definition try_except_OSError {A} (m : action A) (handler : action A) : action A :=
  λ st, match m st with
        | (Ok a, st') => (Ok a, st')
        | (Raise e, st') => if is_OSError e then handler st' else (Raise e, st')
        end.

(** [ensure_directory_exists] *)
Definition ensure_directory_exists (directory_path : path_like) : action unit :=
  prim (mkdir_parents (Path_of directory_path)).

(** [remove_directory] *)
Definition remove_directory (directory_path : path_like) (ignore_errors : bool) :
    action unit :=
  try_except (prim (rmtree directory_path ignore_errors))
    (λ e, if negb ignore_errors
          then bind (log (RemoveDirectoryError (str_of directory_path) e))
                    (λ _, raise e)
          else ret tt).

(** [copy_file], with its log entries among the lines of this module. *)
Definition copy_file (source_path destination_path : path_like) (overwrite : bool) :
    action unit :=
  λ st,
    let '(r, (w', entries)) :=
      Filesystem.copy_file path_exists mkdir_parents copy2
        source_path destination_path overwrite (st.1, []) in
    (r, (w', (st.2 ++ map CopyFileError entries)%list)).

(** [copy_directory] *)
Definition copy_directory (source_path destination_path : path_like)
    (ignore_patterns : option (list string)) : action unit :=
  try_except
    (match ignore_patterns with
     | Some (pattern :: patterns) =>
         prim (copytree source_path destination_path
                 (Some (pattern :: patterns)) true)
     | Some [] | None =>
         prim (copytree source_path destination_path None true)
     end)
    (λ e, bind (log (CopyDirectoryError (str_of source_path)
                                        (str_of destination_path) e))
               (λ _, raise e)).

(** [copy_file_or_directory] *)
Definition copy_file_or_directory (source_path destination_path : path_like)
    (overwrite : bool) (ignore_patterns : option (list string)) : action unit :=
  let source_path := Path_of source_path in
  bind (ask (path_exists source_path)) (λ source_exists,
  if negb source_exists then
    raise (FileNotFoundError ("Source does not exist: " ++ to_str source_path))
  else
    bind (ask (is_file source_path)) (λ source_is_file,
    if source_is_file
    then copy_file (PPath source_path) destination_path overwrite
    else copy_directory (PPath source_path) destination_path ignore_patterns)).

(** [create_directory_safely] *)
Definition create_directory_safely (directory_path : path_like) (overwrite : bool) :
    action Path :=
  let directory_path := Path_of directory_path in
  bind (ask (path_exists directory_path)) (λ already_there,
  bind (if already_there then
          if negb overwrite then
            raise (FileExistsError
                     ("Directory already exists: " ++ to_str directory_path))
          else remove_directory (PPath directory_path) false
        else ret tt) (λ _,
  bind (ensure_directory_exists (PPath directory_path)) (λ _,
  ret directory_path))).

(** [rename_subdirectory] *)
Definition rename_subdirectory (parent_directory : path_like)
    (old_name new_name : string) (overwrite : bool) : action unit :=
  let parent_directory := Path_of parent_directory in
  let old_path := joinpath parent_directory old_name in
  let new_path := joinpath parent_directory new_name in
  bind (ask (path_exists old_path)) (λ old_there,
  if negb old_there then
    raise (FileNotFoundError
             ("Source directory does not exist: " ++ to_str old_path))
  else
    bind (ask (path_exists new_path)) (λ new_there,
    bind (if new_there then
            if negb overwrite then
              raise (FileExistsError
                       ("Destination directory already exists: " ++ to_str new_path))
            else
              try_except (remove_directory (PPath new_path) false)
                (λ error, bind (log (RemoveExistingError (to_str new_path) error))
                               (λ _, raise error))
          else ret tt) (λ _,
    try_except_OSError (prim (rename old_path new_path))
      (try_except
         (bind (prim (copytree (PPath old_path) (PPath new_path) None false)) (λ _,
          remove_directory (PPath old_path) false))
         (λ error,
            bind (ask (path_exists new_path)) (λ new_left,
            bind (if new_left
                  then try_except (remove_directory (PPath new_path) false)
                                  (λ _, ret tt)
                  else ret tt) (λ _,
            bind (log (RenameError (to_str old_path) (to_str new_path) error)) (λ _,
            raise error)))))))).

End WithFileSystem.

(** A small file system to run the functions on: the paths that exist,
    each a file ([true]) or a directory ([false]). *)
Definition tree : Type := gmap string bool.

Definition tree_exists (p : Path) (w : tree) : bool :=
  bool_decide (is_Some (w !! to_str p)).

Definition tree_is_file (p : Path) (w : tree) : bool :=
  bool_decide (w !! to_str p = Some true).

Definition tree_mkdir (p : Path) (w : tree) : result unit * tree :=
  if tree_is_file p w then (Raise (FileExistsError (to_str p)), w)
  else (Ok tt, <[to_str p := false]> w).

Definition tree_copy2 (src dst : Path) (w : tree) : result unit * tree :=
  if tree_is_file src w then (Ok tt, <[to_str dst := true]> w)
  else (Raise (FileNotFoundError (to_str src)), w).

Definition tree_rmtree (p : path_like) (ignore_errors : bool) (w : tree) :
    result unit * tree :=
  if tree_exists (Path_of p) w then (Ok tt, delete (to_str (Path_of p)) w)
  else if ignore_errors then (Ok tt, w)
  else (Raise (FileNotFoundError (str_of p)), w).

Definition tree_copytree (src dst : path_like) (ignore : option (list string))
    (dirs_exist_ok : bool) (w : tree) : result unit * tree :=
  if negb (tree_exists (Path_of src) w) then (Raise (FileNotFoundError (str_of src)), w)
  else if tree_exists (Path_of dst) w && negb dirs_exist_ok
  then (Raise (FileExistsError (str_of dst)), w)
  else (Ok tt, <[to_str (Path_of dst) := false]> w).

(** Renaming, on one device or, failing, across devices. *)
Definition tree_rename (same_device : bool) (old new : Path) (w : tree) :
    result unit * tree :=
  if negb same_device then (Raise (OSError "Invalid cross-device link"), w)
  else if tree_exists old w
  then (Ok tt, <[to_str new := false]> (delete (to_str old) w))
  else (Raise (FileNotFoundError (to_str old)), w).

(** Removal that fails on one path, as for a directory in use. *)
Definition tree_rmtree_guarded (busy : string) (p : path_like) (ignore_errors : bool)
    (w : tree) : result unit * tree :=
  if bool_decide (str_of p = busy) then (Raise (OSError "Device or resource busy"), w)
  else tree_rmtree p ignore_errors w.

(** A directory [/srv] holding a directory [old] and a file [a.txt]. *)
Definition srv : tree :=
  <["/srv/a.txt" := true]> (<["/srv/old" := false]> {["/srv" := false]}).

End Utilities.

(** ** general_filesystem_utilities.py: sizes *)
Module Sizes.

(** [s.startswith("/")] and [s.endswith("/")] *)
Definition starts_with_sep (s : string) : bool :=
  match s with
  | String c _ => bool_decide (c = sep)
  | EmptyString => false
  end.

Definition ends_with_sep (s : string) : bool :=
  match Ends.last_char s with
  | Some c => bool_decide (c = sep)
  | None => false
  end.

(** [os.path.join(a, b)] *)
Definition os_path_join (a b : string) : string :=
  if starts_with_sep b then b
  else if bool_decide (a = "") || ends_with_sep a then a ++ b
  else a ++ String sep b.

(** What [logger.error] is given in [get_directory_size]. *)
Record size_error : Type := mkSizeError {
  size_error_path : string;
  size_error_exn : exn
}.

Section WithFileSystem.

(** [os.walk(top)], as the list of the triples it yields, and
    [os.path.getsize]. *)
Context {World : Type}.
Variable walk : path_like → World → list (string * list string * list string).
Variable getsize : string → World → result nat.

(** The files in the order in which the two loops come to them. *)
Definition files_walked (directory_path : path_like) (w : World) : list string :=
  flat_map (λ '(dirpath, _, filenames), map (os_path_join dirpath) filenames)
           (walk directory_path w).

(** The loops: the sizes are added up until one cannot be had. *)
Fixpoint add_sizes (files : list string) (w : World) (total_size : nat) : result nat :=
  match files with
  | [] => Ok total_size
  | file_path :: files' =>
      match getsize file_path w with
      | Ok n => add_sizes files' w (total_size + n)
      | Raise e => Raise e
      end
  end.

(** [get_directory_size] *)
Definition get_directory_size (directory_path : path_like)
    (st : World * list size_error) : result nat * (World * list size_error) :=
  let '(w, log) := st in
  match add_sizes (files_walked directory_path w) w 0 with
  | Ok total_size => (Ok total_size, (w, log))
  | Raise e => (Raise e, (w, (log ++ [mkSizeError (str_of directory_path) e])%list))
  end.

End WithFileSystem.

(** A walk of [/srv] with a subdirectory, and the sizes of its files. *)
Definition srv_walk (top : path_like) (w : unit) :
    list (string * list string * list string) :=
  [(str_of top, ["sub"], ["a.txt"; "b.txt"]);
   (os_path_join (str_of top) "sub", [], ["c.txt"])].

Definition srv_getsize (file_path : string) (w : unit) : result nat :=
  if bool_decide (file_path = "/srv/a.txt") then Ok 10
  else if bool_decide (file_path = "/srv/b.txt") then Ok 20
  else if bool_decide (file_path = "/srv/sub/c.txt") then Ok 12
  else Raise (FileNotFoundError file_path).

End Sizes.

(** * Properties *)

(** ** Paths: parsing the text of a path gives the path back *)
Section PathFacts.

Lemma split_String (c : ascii) (s : string) :
  split (String c s) =
  if decide (c = sep) then "" :: split s
  else match split s with
       | [] => [String c ""]
       | w :: ws => String c w :: ws
       end.
Proof. done. Qed.

Lemma split_sep (s : string) : split (String sep s) = "" :: split s.
Proof. rewrite split_String. by rewrite decide_True. Qed.

Lemma split_not_sep (c : ascii) (s : string) :
  c ≠ sep →
  split (String c s) =
  match split s with
  | [] => [String c ""]
  | w :: ws => String c w :: ws
  end.
Proof. intros. rewrite split_String. by rewrite decide_False. Qed.

Lemma has_sep_String (c : ascii) (s : string) :
  has_sep (String c s) = false → c ≠ sep ∧ has_sep s = false.
Proof.
  simpl. intros [Hc Hx]%orb_false_elim. by apply bool_decide_eq_false in Hc.
Qed.

Lemma split_no_sep (x : string) : has_sep x = false → split x = [x].
Proof.
  induction x as [|c x IH]; [done|].
  intros [Hc Hx]%has_sep_String.
  rewrite split_not_sep by done. by rewrite IH.
Qed.

Lemma split_app_sep (x r : string) :
  has_sep x = false → split (x ++ String sep r) = x :: split r.
Proof.
  induction x as [|c x IH].
  - intros _. apply split_sep.
  - intros [Hc Hx]%has_sep_String.
    change (String c x +:+ String sep r) with (String c (x +:+ String sep r)).
    rewrite split_not_sep by done. by rewrite IH.
Qed.

Lemma split_join (l : list string) :
  Forall (λ x, has_sep x = false) l → l ≠ [] → split (join l) = l.
Proof.
  induction 1 as [|x l Hx Hl IH]; [done|]. intros _.
  destruct l as [|y l].
  - by apply split_no_sep.
  - change (join (x :: y :: l)) with (x ++ String sep (join (y :: l))).
    rewrite split_app_sep by done. by rewrite IH.
Qed.

Lemma filter_kept_wf (l : list string) :
  Forall wf_part l → filter (λ x, kept x = true) l = l.
Proof.
  induction 1 as [|x l [Hx _] _ IH]; [done|].
  rewrite filter_cons_True by done. by rewrite IH.
Qed.

Lemma split_filter_join (l : list string) :
  Forall wf_part l → filter (λ x, kept x = true) (split (join l)) = l.
Proof.
  intros Hl. destruct l as [|x l]; [done|].
  rewrite split_join; [by rewrite filter_kept_wf| |done].
  eapply Forall_impl; [exact Hl|]. by intros ? [_ ?].
Qed.

Lemma join_no_leading_sep (l : list string) :
  Forall wf_part l → no_leading_sep (join l).
Proof.
  destruct 1 as [|x l [Hk Hs] _]; [done|].
  destruct x as [|c x]; [done|].
  apply has_sep_String in Hs as [Hc _].
  by destruct l.
Qed.

Lemma splitroot_unrooted (s : string) :
  no_leading_sep s → splitroot s = ("", s).
Proof.
  destruct s as [|c s]; [done|]. intros Hc.
  unfold splitroot. by rewrite decide_False.
Qed.

Lemma splitroot_one (s : string) :
  no_leading_sep s → splitroot ("/" ++ s) = ("/", s).
Proof.
  destruct s as [|c s]; [done|]. intros Hc.
  change ("/" +:+ String c s) with (String sep (String c s)).
  unfold splitroot. rewrite decide_True by done. by rewrite decide_False.
Qed.

Lemma splitroot_two (s : string) :
  no_leading_sep s → splitroot ("//" ++ s) = ("//", s).
Proof.
  destruct s as [|c s]; [done|]. intros Hc.
  change ("//" +:+ String c s) with (String sep (String sep (String c s))).
  unfold splitroot. rewrite !decide_True by done. by rewrite decide_False.
Qed.

Lemma parse_to_str (p : Path) : wf p → parse (to_str p) = p.
Proof.
  destruct p as [r l]. intros [Hr Hl]; simpl in *.
  pose proof (join_no_leading_sep l Hl) as Hj.
  unfold to_str; simpl. destruct Hr as [->|[->| ->]].
  - destruct l as [|x l]; [done|].
    assert (join (x :: l) ≠ "") as Hne.
    { inversion Hl as [|?? [Hk _]]; subst.
      destruct x; [done|]. by destruct l. }
    change ("" +:+ join (x :: l)) with (join (x :: l)).
    rewrite decide_False by done.
    unfold parse. rewrite splitroot_unrooted by done.
    by rewrite split_filter_join.
  - rewrite decide_False by done.
    unfold parse. rewrite splitroot_one by done.
    by rewrite split_filter_join.
  - rewrite decide_False by done.
    unfold parse. rewrite splitroot_two by done.
    by rewrite split_filter_join.
Qed.

Lemma split_has_no_sep (s : string) : Forall (λ x, has_sep x = false) (split s).
Proof.
  induction s as [|c s IH]; [by repeat constructor|].
  rewrite split_String. case_decide as Hc.
  - by constructor.
  - destruct (split s) as [|w ws]; [by repeat constructor; simpl; rewrite bool_decide_eq_false_2|].
    inversion IH; subst. constructor; [|done].
    simpl. by rewrite bool_decide_eq_false_2.
Qed.

Lemma splitroot_root (s : string) :
  (splitroot s).1 = "" ∨ (splitroot s).1 = "/" ∨ (splitroot s).1 = "//".
Proof.
  unfold splitroot.
  repeat (first [case_decide | case_match]; simpl; auto).
Qed.

(** Every parsed text is a well-formed path. *)
Lemma parse_wf (s : string) : wf (parse s).
Proof.
  unfold parse. pose proof (splitroot_root s) as Hr.
  destruct (splitroot s) as [r rel]. split; [done|]. simpl.
  apply Forall_forall. intros x [Hk Hx]%list_elem_of_filter.
  split; [done|].
  by eapply (proj1 (Forall_forall _ _) (split_has_no_sep rel)).
Qed.

Lemma Path_of_wf (x : path_like) : wf_like x → wf (Path_of x).
Proof. destruct x; [intros _; apply parse_wf | done]. Qed.

Lemma parse_str_of (x : path_like) : wf_like x → parse (str_of x) = Path_of x.
Proof. destruct x; [done | apply parse_to_str]. Qed.

End PathFacts.

(** ** The observer and its configuration *)
Section ObserverFacts.
Import Observer.

Example strip_pattern : strip "  *.py   " = "*.py".
Proof. reflexivity. Qed.

Example strip_inner : strip " a b " = "a b".
Proof. reflexivity. Qed.

Example init_single_string :
  directories_to_observe (init (One (PStr "/tmp/proj/")) ["*.py "] [] (Some "LOCK"))
  = [mkPath "/" ["tmp"; "proj"]].
Proof. reflexivity. Qed.

Lemma init_directories (arg : directories_arg) (incl excl : list string)
    (lock : option string) :
  directories_to_observe (init arg incl excl lock) =
  map (λ directory, parse (str_of directory))
      match arg with
      | One x => [x]
      | Many l => l
      end.
Proof. by destruct arg. Qed.

(** C8. A configuration built from a single path, given as a path object or
    as a string, watches exactly that path; built from a sequence of paths
    it watches exactly those paths, as many and in the order given. *)
Theorem directories_to_observe_normalized (incl excl : list string)
    (lock : option string) :
  (∀ x : path_like, wf_like x →
     directories_to_observe (init (One x) incl excl lock) = [Path_of x]) ∧
  (∀ l : list path_like, Forall wf_like l →
     directories_to_observe (init (Many l) incl excl lock) = map Path_of l ∧
     length (directories_to_observe (init (Many l) incl excl lock)) = length l).
Proof.
  split.
  - intros x Hx. rewrite init_directories. simpl. by rewrite parse_str_of.
  - intros l Hl. rewrite init_directories.
    assert (map (λ directory, parse (str_of directory)) l = map Path_of l) as ->.
    { induction Hl as [|x l Hx _ IH]; [done|]. simpl. by rewrite parse_str_of, IH. }
    by rewrite length_map.
Qed.

Lemma directories_to_observe_normalized_witness :
  directories_to_observe
    (init (One (PPath (mkPath "/" ["tmp"; "proj"]))) [] [] None)
  = [mkPath "/" ["tmp"; "proj"]]
  ∧ directories_to_observe
      (init (Many [PStr "/srv/a"; PPath (mkPath "" ["b"; "c"]); PStr "d"]) [] [] None)
    = [mkPath "/" ["srv"; "a"]; mkPath "" ["b"; "c"]; mkPath "" ["d"]].
Proof.
  split.
  - apply (proj1 (directories_to_observe_normalized [] [] None)
             (PPath (mkPath "/" ["tmp"; "proj"]))).
    split; [by right; left|]. by repeat constructor.
  - apply (proj2 (directories_to_observe_normalized [] [] None)
             [PStr "/srv/a"; PPath (mkPath "" ["b"; "c"]); PStr "d"]).
    repeat constructor; by left.
Defined.

Lemma is_lock_file_present_name (self : FileSystemObserver) (fs : FS) (name : string) :
  processing_lock_file (config self) = Some name → name ≠ "" →
  is_lock_file_present self fs =
  existsb (λ directory, fs (joinpath directory name)) (_directories self).
Proof.
  intros Hl Hn. unfold is_lock_file_present. rewrite Hl. simpl.
  by rewrite bool_decide_eq_true_2.
Qed.

Lemma is_lock_file_present_unset (self : FileSystemObserver) (fs : FS) :
  truthy (processing_lock_file (config self)) = false →
  is_lock_file_present self fs = false.
Proof. intros Hl. unfold is_lock_file_present. by rewrite Hl. Qed.

(** C4. [is_lock_file_present] is true exactly when a lock-file name is
    configured (a string that is not empty) and one of the watched
    directories holds a file of that name in the file system as it is at
    the call; with no lock-file name configured it is false whatever the
    directories hold. *)
Theorem is_lock_file_present_iff (self : FileSystemObserver) (fs : FS) :
  (is_lock_file_present self fs = true ↔
   ∃ name, processing_lock_file (config self) = Some name ∧ name ≠ "" ∧
     ∃ directory, directory ∈ _directories self ∧ fs (joinpath directory name) = true)
  ∧ (processing_lock_file (config self) = None → is_lock_file_present self fs = false).
Proof.
  split.
  - destruct (processing_lock_file (config self)) as [name|] eqn:Hl.
    + destruct (decide (name = "")) as [->|Hn].
      * rewrite is_lock_file_present_unset by (by rewrite Hl).
        split; [done|]. by intros (n & [= <-] & Hn & _).
      * rewrite (is_lock_file_present_name _ _ name) by done.
        rewrite existsb_exists. split.
        -- intros (d & Hd%list_elem_of_In & Hfs). eauto 10.
        -- intros (n & [= <-] & _ & d & Hd%list_elem_of_In & Hfs). eauto.
    + rewrite is_lock_file_present_unset by (by rewrite Hl).
      split; [done|]. by intros (n & [=] & _).
  - intros Hl. apply is_lock_file_present_unset. by rewrite Hl.
Qed.

End ObserverFacts.

(** ** The change processor *)
Section ProcessorFacts.
Import Observer Processor Scenario.

Lemma elem_of_changes_to_process (self : FileSystemChangeProcessor) (a : Arrival)
    (e : event) :
  e ∈ changes_to_process self a ↔ e ∈ changes a ∧ retains self a e = true.
Proof. unfold changes_to_process. rewrite elem_of_filter. tauto. Qed.

Lemma retains_spec (self : FileSystemChangeProcessor) (a : Arrival) (e : event) :
  retains self a e = true ↔
  _should_process_change (file_system_change_responder self) e.2 = true
  ∧ Some e.2 ≠ processing_lock_file (config (observer self))
  ∧ is_lock_file_present (observer self) (fs_at a e) = false.
Proof.
  destruct e as [change path]. unfold retains. simpl.
  rewrite !andb_true_iff, bool_decide_eq_true, negb_true_iff. tauto.
Qed.

Lemma changes_to_process_subseteq (self : FileSystemChangeProcessor) (a : Arrival) :
  changes_to_process self a ⊆ changes a.
Proof. intros e. rewrite elem_of_changes_to_process. tauto. Qed.

Lemma process_batch_nonempty (self : FileSystemChangeProcessor) (a : Arrival) :
  changes_to_process self a ≠ ∅ →
  process_batch self a = [_handle_directory_change (changes_to_process self a)].
Proof. intros Hne. unfold process_batch. by rewrite decide_True. Qed.

Lemma process_batch_empty (self : FileSystemChangeProcessor) (a : Arrival) :
  changes_to_process self a = ∅ → process_batch self a = [].
Proof. intros He. unfold process_batch. rewrite decide_False; [done|]. auto. Qed.

(** An event whose path is, character for character, the configured
    lock-file string is never retained. *)
Lemma configured_string_excluded (self : FileSystemChangeProcessor) (a : Arrival)
    (change : Change) (path : string) :
  processing_lock_file (config (observer self)) = Some path →
  (change, path) ∉ changes_to_process self a.
Proof.
  intros Hl. rewrite elem_of_changes_to_process, retains_spec. simpl.
  intros (_ & _ & Hne & _). by rewrite Hl in Hne.
Qed.

(** An event on the lock file inside a watched directory, whose path is
    not the bare configured string, passes the test on the path: it is
    retained as soon as the responder accepts it and no lock file is seen. *)
Lemma lock_path_event_retained (self : FileSystemChangeProcessor) (a : Arrival)
    (change : Change) (directory : Path) (name : string) :
  processing_lock_file (config (observer self)) = Some name →
  to_str (joinpath directory name) ≠ name →
  (change, to_str (joinpath directory name)) ∈ changes a →
  _should_process_change (file_system_change_responder self)
    (to_str (joinpath directory name)) = true →
  is_lock_file_present (observer self)
    (fs_at a (change, to_str (joinpath directory name))) = false →
  (change, to_str (joinpath directory name)) ∈ changes_to_process self a.
Proof.
  intros Hl Hne Hin Hok Hfree.
  apply elem_of_changes_to_process. split; [done|].
  apply retains_spec. simpl. rewrite Hl. split_and!; [done | congruence | done].
Qed.

Example scenario_lock_path :
  lock_event.2 = to_str (joinpath (parse "/tmp/proj") "LOCK")
  ∧ _directories (observer (Processor.new proj_config accept_all)) = [parse "/tmp/proj"].
Proof. by vm_compute. Qed.

Example scenario_unlocked :
  is_lock_file_present (observer (Processor.new proj_config accept_all)) unlocked_fs = false
  ∧ is_lock_file_present (observer (Processor.new proj_config accept_all)) locked_fs = true.
Proof. by vm_compute. Qed.

(** The example of the specification, with the responder that turns the
    lock path down itself: only [a.txt] is processed. *)
Example scenario_accept_non_lock :
  changes_to_process (Processor.new proj_config accept_non_lock) (arrival unlocked_fs)
  = {[a_txt]}.
Proof. by vm_compute. Qed.

(** C1, as the code runs. With the watched directory [/tmp/proj], the
    lock-file name ["LOCK"], no lock file present and a responder that
    accepts the path, the event on [/tmp/proj/LOCK], the lock-file path
    inside the watched directory, is retained and handed to
    [_handle_directory_change]: its path is compared with the bare name
    ["LOCK"], from which it differs. *)
Theorem lock_file_event_retained :
  lock_event.2 = to_str (joinpath (parse "/tmp/proj") "LOCK")
  ∧ parse "/tmp/proj" ∈ _directories (observer (Processor.new proj_config accept_all))
  ∧ processing_lock_file proj_config = Some "LOCK"
  ∧ is_lock_file_present (observer (Processor.new proj_config accept_all)) unlocked_fs = false
  ∧ lock_event ∈
      changes_to_process (Processor.new proj_config accept_all) (arrival unlocked_fs)
  ∧ process_batch (Processor.new proj_config accept_all) (arrival unlocked_fs)
    = [_handle_directory_change {[a_txt; lock_event]}].
Proof.
  split_and!; try (by vm_compute).
  vm_compute. by left.
Qed.

(** C2. When [is_lock_file_present] is true at the test of every event of
    a batch, the set built for the batch is empty, whatever the responder
    answers for the events, and [_handle_directory_change] is not called. *)
Theorem lock_present_empties_batch (self : FileSystemChangeProcessor) (a : Arrival) :
  (∀ e, e ∈ changes a → is_lock_file_present (observer self) (fs_at a e) = true) →
  changes_to_process self a = ∅ ∧ process_batch self a = [].
Proof.
  intros Hlock.
  assert (changes_to_process self a = ∅) as Hempty.
  { apply set_eq. intros e. rewrite elem_of_changes_to_process, retains_spec.
    split; [|set_solver]. intros (He & _ & _ & Hfalse).
    rewrite (Hlock e He) in Hfalse. discriminate. }
  split; [done | by apply process_batch_empty].
Qed.

Lemma lock_present_empties_batch_witness :
  changes_to_process (Processor.new proj_config accept_all) (arrival locked_fs) = ∅
  ∧ process_batch (Processor.new proj_config accept_all) (arrival locked_fs) = [].
Proof.
  apply (lock_present_empties_batch
           (Processor.new proj_config accept_all) (arrival locked_fs)).
  intros e _. vm_compute. reflexivity.
Defined.

(** The dispatch of one batch: [_handle_directory_change] is called
    exactly when the set that the comprehension builds is not empty, once,
    with that set, which is part of the batch. The events of that set are
    those that pass the responder's predicate, whose path is not the
    configured string, and that are tested while no lock file is present. *)
Lemma handler_called_iff_retained (self : FileSystemChangeProcessor) (a : Arrival) :
  let retained := changes_to_process self a in
  (∀ e, e ∈ retained ↔
        e ∈ changes a
        ∧ _should_process_change (file_system_change_responder self) e.2 = true
        ∧ Some e.2 ≠ processing_lock_file (config (observer self))
        ∧ is_lock_file_present (observer self) (fs_at a e) = false)
  ∧ ((∃ s, _handle_directory_change s ∈ process_batch self a) ↔ retained ≠ ∅)
  ∧ (retained ≠ ∅ → process_batch self a = [_handle_directory_change retained])
  ∧ (retained = ∅ → process_batch self a = [])
  ∧ (∀ s, _handle_directory_change s ∈ process_batch self a →
          s = retained ∧ s ⊆ changes a ∧ s ≠ ∅).
Proof.
  intros retained. subst retained. split_and!.
  - intros e. by rewrite elem_of_changes_to_process, retains_spec.
  - destruct (decide (changes_to_process self a = ∅)) as [He|Hne].
    + rewrite process_batch_empty by done. split; [|done].
      intros [s Hs]. by apply elem_of_nil in Hs.
    + rewrite process_batch_nonempty by done. split; [done|].
      intros _. eexists. by apply list_elem_of_singleton.
  - apply process_batch_nonempty.
  - apply process_batch_empty.
  - intros s Hs.
    destruct (decide (changes_to_process self a = ∅)) as [He|Hne].
    + rewrite process_batch_empty in Hs by done. by apply elem_of_nil in Hs.
    + rewrite process_batch_nonempty in Hs by done.
      apply list_elem_of_singleton in Hs as [= ->].
      split_and!; [done | apply changes_to_process_subseteq | done].
Qed.

(** C5, as the code runs. With the watched directory [/tmp/proj], the
    lock-file name ["LOCK"], no lock file present and a responder that
    accepts every path: for the batch of the lock-file event alone the
    retained set of the specification is empty, yet [process_changes]
    calls [_handle_directory_change], with the lock-file event; and for
    the batch of [a.txt] and the lock file the call is made with both
    events, where the retained set of the specification holds [a.txt]
    only. *)
Theorem handler_called_for_lock_event_alone :
  Specified.lock_file_paths (observer (Processor.new proj_config accept_all))
  = ["/tmp/proj/LOCK"]
  ∧ Specified.retained_as_specified (Processor.new proj_config accept_all) lock_only = ∅
  ∧ process_changes (Processor.new proj_config accept_all) [lock_only]
    = [_handle_directory_change {[lock_event]}]
  ∧ Specified.retained_as_specified (Processor.new proj_config accept_all)
      (arrival unlocked_fs) = {[a_txt]}
  ∧ process_changes (Processor.new proj_config accept_all) [arrival unlocked_fs]
    = [_handle_directory_change {[a_txt; lock_event]}].
Proof. split_and!; by vm_compute. Qed.

(** The calls made over a whole stream are those made for its batches, in
    order, up to the first batch that finds the observer stopped. *)
Lemma process_changes_cons (self : FileSystemChangeProcessor) (a : Arrival)
    (stream : list Arrival) :
  process_changes self (a :: stream) =
  if stop_requested a then []
  else (process_batch self a ++ process_changes self stream)%list.
Proof. unfold process_changes. simpl. by destruct (stop_requested a). Qed.

End ProcessorFacts.

(** ** The registry *)
Section RegistryFacts.
Import Registry Scenario.
Context {Obj : Type}.
Implicit Types (cls : Registry Obj) (data : Obj) (alias : option string).

Lemma register_data_without_alias cls data alias (uuid4 : UUID) :
  truthy alias = false →
  register_data data alias uuid4 cls =
  (Ok (uuid_text uuid4),
   mkRegistry (<[uuid_text uuid4 := data]> (_data cls)) (_aliases cls)).
Proof. intros Ha. unfold register_data, bind, modify, ret. by rewrite Ha. Qed.

Lemma register_data_with_alias cls data (name : string) (uuid4 : UUID) :
  name ≠ "" →
  register_data data (Some name) uuid4 cls =
  (Ok (uuid_text uuid4),
   mkRegistry (<[uuid_text uuid4 := data]> (_data cls))
              (<[name := uuid_text uuid4]> (_aliases cls))).
Proof.
  intros Hn. unfold register_data, bind, modify, ret. simpl.
  by rewrite bool_decide_eq_true_2.
Qed.

Lemma get_data_unfold cls (ident : identifier) :
  get_data ident cls =
  (match _data cls !! default (str_of_identifier ident)
                              (_aliases cls !! str_of_identifier ident) with
   | Some o => Ok o
   | None => Raise (KeyError (default (str_of_identifier ident)
                                      (_aliases cls !! str_of_identifier ident)))
   end, cls).
Proof.
  unfold get_data, bind, read, data_getitem.
  destruct (_aliases cls !! str_of_identifier ident); simpl; by case_match.
Qed.

Lemma get_data_direct cls (ident : identifier) data :
  _aliases cls !! str_of_identifier ident = None →
  _data cls !! str_of_identifier ident = Some data →
  get_data ident cls = (Ok data, cls).
Proof. intros Ha Hd. rewrite get_data_unfold, Ha. simpl. by rewrite Hd. Qed.

Lemma get_data_aliased cls (ident : identifier) (target : string) data :
  _aliases cls !! str_of_identifier ident = Some target →
  _data cls !! target = Some data →
  get_data ident cls = (Ok data, cls).
Proof. intros Ha Hd. rewrite get_data_unfold, Ha. simpl. by rewrite Hd. Qed.

(** C3. A registration returns the identifier drawn for it, and [get_data]
    on that identifier, as a string or as a [UUID], gives the registered
    object back. Registered without an alias ([None], or the empty string,
    which the code takes for none) the object gets no alias: the aliases
    are as before. Registered with an alias, [get_data] on the alias gives
    the same object back. *)
Theorem register_then_get cls data alias (uuid4 : UUID) :
  fresh cls alias uuid4 →
  ∃ cls',
    register_data data alias uuid4 cls = (Ok (uuid_text uuid4), cls')
    ∧ get_data (IdStr (uuid_text uuid4)) cls' = (Ok data, cls')
    ∧ get_data (IdUUID uuid4) cls' = (Ok data, cls')
    ∧ (truthy alias = false → _aliases cls' = _aliases cls)
    ∧ (∀ name, alias = Some name → name ≠ "" →
         _aliases cls' !! name = Some (uuid_text uuid4)
         ∧ get_data (IdStr name) cls' = (Ok data, cls')).
Proof.
  intros (_ & Hfresh & Hself). apply not_elem_of_dom in Hfresh.
  destruct (truthy alias) eqn:Ha.
  - destruct alias as [name|]; [|done]. simpl in Ha.
    apply bool_decide_eq_true in Ha.
    eexists. split; [by apply register_data_with_alias|].
    assert (name ≠ uuid_text uuid4) as Hne by congruence.
    split_and!.
    + apply get_data_direct; simpl.
      * by rewrite lookup_insert_ne.
      * by rewrite lookup_insert_eq.
    + apply get_data_direct; simpl.
      * by rewrite lookup_insert_ne.
      * by rewrite lookup_insert_eq.
    + done.
    + intros ? [= <-] _. split; simpl; [by rewrite lookup_insert_eq|].
      apply get_data_aliased with (target := uuid_text uuid4); simpl;
        by rewrite lookup_insert_eq.
  - eexists. split; [by apply register_data_without_alias|].
    split_and!; simpl.
    + apply get_data_direct; simpl; [done | by rewrite lookup_insert_eq].
    + apply get_data_direct; simpl; [done | by rewrite lookup_insert_eq].
    + done.
    + intros name -> Hn. simpl in Ha. by apply bool_decide_eq_false in Ha.
Qed.

(** C6. For a string that is neither a key of the data nor an alias,
    [get_data] raises [KeyError], and the registry is left as it was. *)
Theorem get_data_unknown cls (ident : identifier) :
  str_of_identifier ident ∉ dom (_data cls) →
  str_of_identifier ident ∉ dom (_aliases cls) →
  get_data ident cls = (Raise (KeyError (str_of_identifier ident)), cls).
Proof.
  intros Hd%not_elem_of_dom Ha%not_elem_of_dom.
  rewrite get_data_unfold, Ha. simpl. by rewrite Hd.
Qed.

(** C7. Two registrations in a row under the same alias: the second
    replaces what the alias stands for. Afterwards [get_data] on the alias
    gives the second object, and [get_data] on the identifier of the first
    registration still gives the first object. *)
Theorem alias_collision_overwrites cls (d1 d2 : Obj) (name : string) (u1 u2 : UUID) :
  let cls1 := (register_data d1 (Some name) u1 cls).2 in
  let cls2 := (register_data d2 (Some name) u2 cls1).2 in
  name ≠ "" →
  fresh cls (Some name) u1 →
  fresh cls1 (Some name) u2 →
  (register_data d1 (Some name) u1 cls).1 = Ok (uuid_text u1)
  ∧ (register_data d2 (Some name) u2 cls1).1 = Ok (uuid_text u2)
  ∧ _aliases cls1 !! name = Some (uuid_text u1)
  ∧ _aliases cls2 !! name = Some (uuid_text u2)
  ∧ get_data (IdStr name) cls2 = (Ok d2, cls2)
  ∧ get_data (IdStr (uuid_text u1)) cls2 = (Ok d1, cls2).
Proof.
  intros cls1 cls2 Hn (_ & Ha1 & Hs1) (Hd2 & _ & _).
  subst cls2 cls1. rewrite !register_data_with_alias in * by done.
  simpl in *. apply not_elem_of_dom in Ha1.
  assert (uuid_text u2 ≠ uuid_text u1) as Hne.
  { intros Heq. apply Hd2. rewrite Heq, dom_insert_L. set_solver. }
  assert (name ≠ uuid_text u1) as Hne1 by congruence.
  split_and!; try done.
  - by rewrite lookup_insert_eq.
  - by rewrite lookup_insert_eq.
  - apply get_data_aliased with (target := uuid_text u2); simpl;
      by rewrite lookup_insert_eq.
  - apply get_data_direct; simpl.
    + by rewrite !lookup_insert_ne.
    + rewrite lookup_insert_ne by done. by rewrite lookup_insert_eq.
Qed.

(** C10. The aliases are looked at first. When a string is an alias,
    [get_data] looks up what the alias stands for; so when the string is
    also a key of the data, the object found is the one the alias leads
    to, and not the one stored under the string itself. *)
Theorem alias_takes_precedence cls (ident : identifier) (target : string)
    (direct aliased : Obj) :
  _aliases cls !! str_of_identifier ident = Some target →
  _data cls !! str_of_identifier ident = Some direct →
  _data cls !! target = Some aliased →
  get_data ident cls = (Ok aliased, cls)
  ∧ (aliased ≠ direct → get_data ident cls ≠ (Ok direct, cls)).
Proof.
  intros Ha _ Ht. rewrite (get_data_aliased cls ident target aliased) by done.
  split; [done|]. intros Hne [= Heq]. by apply Hne.
Qed.

End RegistryFacts.

(** *** The registry at work *)
Section RegistryRuns.
Import Registry Scenario.

Lemma fresh_empty {A : Type} (alias : option string) (uuid4 : UUID) :
  alias ≠ Some (uuid_text uuid4) → fresh (mkRegistry (Obj := A) ∅ ∅) alias uuid4.
Proof. intros Hne. split_and!; [set_solver | set_solver | done]. Qed.

Lemma register_then_get_witness :
  ∃ cls' : Registry string,
    register_data "widget" (Some "Widget") uuid_a empty_registry
    = (Ok (uuid_text uuid_a), cls')
    ∧ get_data (IdStr (uuid_text uuid_a)) cls' = (Ok "widget", cls')
    ∧ get_data (IdUUID uuid_a) cls' = (Ok "widget", cls')
    ∧ (truthy (Some "Widget") = false → _aliases cls' = _aliases empty_registry)
    ∧ (∀ name, Some "Widget" = Some name → name ≠ "" →
         _aliases cls' !! name = Some (uuid_text uuid_a)
         ∧ get_data (IdStr name) cls' = (Ok "widget", cls')).
Proof.
  apply (register_then_get (Obj := string) empty_registry "widget" (Some "Widget") uuid_a).
  by apply fresh_empty.
Defined.

(** The empty string is no alias: nothing is recorded for it, and looking
    it up fails. *)
Example register_empty_alias :
  register_data "widget" (Some "") uuid_a empty_registry
  = register_data "widget" None uuid_a empty_registry
  ∧ get_data (IdStr "") (register_data "widget" (Some "") uuid_a empty_registry).2
    = (Raise (KeyError ""), (register_data "widget" (Some "") uuid_a empty_registry).2).
Proof. split; reflexivity. Qed.

Lemma get_data_unknown_witness :
  get_data (IdStr "Gadget")
    (register_data "widget" (Some "Widget") uuid_a empty_registry).2
  = (Raise (KeyError "Gadget"),
     (register_data "widget" (Some "Widget") uuid_a empty_registry).2).
Proof.
  apply (get_data_unknown (Obj := string)
           (register_data "widget" (Some "Widget") uuid_a empty_registry).2
           (IdStr "Gadget")).
  - apply not_elem_of_dom. reflexivity.
  - apply not_elem_of_dom. reflexivity.
Defined.

Lemma alias_collision_overwrites_witness :
  let cls1 := (register_data "first" (Some "Widget") uuid_a empty_registry).2 in
  let cls2 := (register_data "second" (Some "Widget") uuid_b cls1).2 in
  get_data (IdStr "Widget") cls2 = (Ok "second", cls2)
  ∧ get_data (IdStr (uuid_text uuid_a)) cls2 = (Ok "first", cls2).
Proof.
  intros cls1 cls2.
  refine (let H := alias_collision_overwrites (Obj := string)
                     empty_registry "first" "second" "Widget" uuid_a uuid_b _ _ _ in
          conj (proj1 (proj2 (proj2 (proj2 (proj2 H)))))
               (proj2 (proj2 (proj2 (proj2 (proj2 H)))))).
  - done.
  - by apply fresh_empty.
  - split_and!; [apply not_elem_of_dom; reflexivity
                | apply not_elem_of_dom; reflexivity | done].
Defined.

(** A registry in which the identifier of the first object has been given
    as the alias of the second: the string is a key of both dictionaries. *)
Lemma alias_takes_precedence_witness :
  let cls1 := (register_data "first" None uuid_a empty_registry).2 in
  let cls2 := (register_data "second" (Some (uuid_text uuid_a)) uuid_b cls1).2 in
  get_data (IdStr (uuid_text uuid_a)) cls2 = (Ok "second", cls2)
  ∧ ("second" ≠ "first" →
     get_data (IdStr (uuid_text uuid_a)) cls2 ≠ (Ok "first", cls2)).
Proof.
  intros cls1 cls2.
  apply (alias_takes_precedence (Obj := string) cls2 (IdStr (uuid_text uuid_a))
           (uuid_text uuid_b) "first" "second"); reflexivity.
Defined.

End RegistryRuns.

(** ** Copying a file *)
Section CopyFileFacts.
Import Filesystem.
Context {World : Type}.
Variable path_exists : Path → World → bool.
Variable mkdir_parents : Path → World → result unit * World.
Variable copy2 : Path → Path → World → result unit * World.

(** The handler of [copy_file]: what the body raises is logged once and
    raised again, in the file system as the body left it. *)
Lemma copy_file_reraises (source destination : path_like) (overwrite : bool)
    (w w' : World) (log : list log_entry) (e : exn) :
  copy_file_body path_exists mkdir_parents copy2
    (Path_of source) (Path_of destination) overwrite w = (Raise e, w') →
  copy_file path_exists mkdir_parents copy2 source destination overwrite (w, log) =
  (Raise e,
   (w', (log ++ [mkLogEntry (to_str (Path_of source))
                            (to_str (Path_of destination)) e])%list)).
Proof. intros Hb. unfold Filesystem.copy_file. by rewrite Hb. Qed.

Lemma copy_file_returns (source destination : path_like) (overwrite : bool)
    (w w' : World) (log : list log_entry) (u : unit) :
  copy_file_body path_exists mkdir_parents copy2
    (Path_of source) (Path_of destination) overwrite w = (Ok u, w') →
  copy_file path_exists mkdir_parents copy2 source destination overwrite (w, log)
  = (Ok tt, (w', log)).
Proof. intros Hb. unfold Filesystem.copy_file. by rewrite Hb. Qed.

(** C9. [copy_file] raises [FileNotFoundError] when the source does not
    exist; with the source there, it raises [FileExistsError] when the
    destination exists and [overwrite] is false; otherwise it makes the
    parent directories of the destination and copies, once each. Whatever
    is raised on the way, by the two checks or by the file system, reaches
    the caller as it is, after one entry in the log: nothing is tried
    again and nothing is undone. *)
Theorem copy_file_outcomes (source destination : path_like) (overwrite : bool)
    (w : World) (log : list log_entry) :
  let src := Path_of source in
  let dst := Path_of destination in
  let logged e := (log ++ [mkLogEntry (to_str src) (to_str dst) e])%list in
  (path_exists src w = false →
     copy_file path_exists mkdir_parents copy2 source destination overwrite (w, log) =
     (Raise (FileNotFoundError ("Source file does not exist: " ++ to_str src)),
      (w, logged (FileNotFoundError ("Source file does not exist: " ++ to_str src)))))
  ∧ (path_exists src w = true → path_exists dst w = true → overwrite = false →
     copy_file path_exists mkdir_parents copy2 source destination overwrite (w, log) =
     (Raise (FileExistsError ("Destination file already exists: " ++ to_str dst)),
      (w, logged (FileExistsError ("Destination file already exists: " ++ to_str dst)))))
  ∧ (path_exists src w = true → path_exists dst w = false ∨ overwrite = true →
     copy_file path_exists mkdir_parents copy2 source destination overwrite (w, log) =
     match mkdir_parents (parent dst) w with
     | (Ok _, w1) =>
         match copy2 src dst w1 with
         | (Ok _, w2) => (Ok tt, (w2, log))
         | (Raise e, w2) => (Raise e, (w2, logged e))
         end
     | (Raise e, w1) => (Raise e, (w1, logged e))
     end).
Proof.
  intros src dst logged. subst src dst logged. split_and!.
  - intros Hs. apply copy_file_reraises.
    unfold Filesystem.copy_file_body. by rewrite Hs.
  - intros Hs Hd ->. apply copy_file_reraises.
    unfold Filesystem.copy_file_body. by rewrite Hs, Hd.
  - intros Hs Hd.
    assert (path_exists (Path_of destination) w && negb overwrite = false) as Hgo.
    { destruct Hd as [-> | ->]; [done | apply andb_false_r]. }
    unfold Filesystem.copy_file, Filesystem.copy_file_body. rewrite Hs, Hgo. simpl.
    destruct (mkdir_parents _ w) as [[u|e] w1]; [|done].
    by destruct (copy2 _ _ w1) as [[u'|e] w2].
Qed.

End CopyFileFacts.

(** *** [copy_file] on the small file system *)
Section CopyFileRuns.
Import Filesystem.

Example copy_into_new_directory :
  copy_file toy_exists toy_mkdir toy_copy2
    (PStr "/srv/a.txt") (PStr "/srv/out/b.txt") false
    ({["/srv"; "/srv/a.txt"]}, [])
  = (Ok tt, ({["/srv/out/b.txt"; "/srv/out"; "/srv"; "/srv/a.txt"]}, [])).
Proof. by vm_compute. Qed.

Example copy_over_with_overwrite :
  (copy_file toy_exists toy_mkdir toy_copy2
     (PStr "/srv/a.txt") (PPath (mkPath "/" ["srv"; "b.txt"])) true
     ({["/srv"; "/srv/a.txt"; "/srv/b.txt"]}, [])).1
  = Ok tt.
Proof. by vm_compute. Qed.

Lemma copy_file_outcomes_witness :
  copy_file toy_exists toy_mkdir toy_copy2 (PStr "/srv/missing.txt") (PStr "/srv/b.txt") false
    ({["/srv"; "/srv/b.txt"]}, [])
  = (Raise (FileNotFoundError "Source file does not exist: /srv/missing.txt"),
     ({["/srv"; "/srv/b.txt"]},
      [mkLogEntry "/srv/missing.txt" "/srv/b.txt"
         (FileNotFoundError "Source file does not exist: /srv/missing.txt")]))
  ∧ copy_file toy_exists toy_mkdir toy_copy2 (PStr "/srv/a.txt") (PStr "/srv/b.txt") false
      ({["/srv"; "/srv/a.txt"; "/srv/b.txt"]}, [])
    = (Raise (FileExistsError "Destination file already exists: /srv/b.txt"),
       ({["/srv"; "/srv/a.txt"; "/srv/b.txt"]},
        [mkLogEntry "/srv/a.txt" "/srv/b.txt"
           (FileExistsError "Destination file already exists: /srv/b.txt")])).
Proof.
  split.
  - apply (proj1 (copy_file_outcomes toy_exists toy_mkdir toy_copy2
                    (PStr "/srv/missing.txt") (PStr "/srv/b.txt") false
                    {["/srv"; "/srv/b.txt"]} [])).
    by vm_compute.
  - apply (proj1 (proj2 (copy_file_outcomes toy_exists toy_mkdir toy_copy2
                    (PStr "/srv/a.txt") (PStr "/srv/b.txt") false
                    {["/srv"; "/srv/a.txt"; "/srv/b.txt"]} []))).
    + by vm_compute.
    + by vm_compute.
    + done.
Defined.

End CopyFileRuns.

(** ** The registry over sequences of calls *)
Section RegistrySequences.
Import Registry Registering.
Context {Obj : Type}.
Implicit Types (cls : Registry Obj) (data : Obj) (alias : option string).

Lemma register_data_state cls data alias (uuid4 : UUID) :
  (register_data data alias uuid4 cls).2 =
  mkRegistry (<[uuid_text uuid4 := data]> (_data cls))
             (if truthy alias
              then match alias with
                   | Some name => <[name := uuid_text uuid4]> (_aliases cls)
                   | None => _aliases cls
                   end
              else _aliases cls).
Proof.
  destruct (truthy alias) eqn:Ha.
  - destruct alias as [name|]; [|done]. simpl in Ha.
    apply bool_decide_eq_true in Ha. by rewrite register_data_with_alias.
  - by rewrite register_data_without_alias.
Qed.

Lemma get_data_state cls (ident : identifier) : (get_data ident cls).2 = cls.
Proof. by rewrite get_data_unfold. Qed.

Lemma aliases_resolve_step cls (o : op Obj) :
  aliases_resolve cls → aliases_resolve (step cls o).
Proof.
  intros Hinv. destruct o as [data alias uuid4 | ident | ]; simpl.
  - rewrite register_data_state. intros name target. simpl.
    assert (∀ t, is_Some (_data cls !! t) →
                 is_Some (<[uuid_text uuid4 := data]> (_data cls) !! t)) as Hkeep.
    { intros t Ht. destruct (decide (uuid_text uuid4 = t)) as [->|Hne].
      - rewrite lookup_insert_eq. eauto.
      - by rewrite lookup_insert_ne. }
    destruct (truthy alias); [destruct alias as [al|]|].
    + destruct (decide (al = name)) as [->|Hne].
      * rewrite lookup_insert_eq. intros [= <-]. rewrite lookup_insert_eq. eauto.
      * rewrite lookup_insert_ne by done. intros Hl. eapply Hkeep, Hinv, Hl.
    + intros Hl. eapply Hkeep, Hinv, Hl.
    + intros Hl. eapply Hkeep, Hinv, Hl.
  - by rewrite get_data_state.
  - intros name target. simpl. by rewrite lookup_empty.
Qed.

Lemma aliases_resolve_foldl (ops : list (op Obj)) cls :
  aliases_resolve cls → aliases_resolve (foldl step cls ops).
Proof.
  revert cls. induction ops as [|o ops IH]; intros cls Hinv; [done|].
  simpl. by apply IH, aliases_resolve_step.
Qed.

(** X1. Whatever calls have been made on the registry, in whatever order
    and with whatever identifiers drawn, every alias it holds stands for a
    stored object: [get_data] on a recorded alias returns and does not
    raise. *)
Theorem recorded_alias_always_resolves (ops : list (op Obj)) (name target : string) :
  _aliases (run ops) !! name = Some target →
  ∃ data, _data (run ops) !! target = Some data
          ∧ get_data (IdStr name) (run ops) = (Ok data, run ops).
Proof.
  intros Ha.
  assert (aliases_resolve (run ops)) as Hinv.
  { apply aliases_resolve_foldl. intros ??. simpl. by rewrite lookup_empty. }
  destruct (Hinv name target Ha) as [data Hd].
  exists data. split; [done|]. by apply get_data_aliased with (target := target).
Qed.

(** X2. After [clear] nothing is found any more: [get_data] raises
    [KeyError] for every identifier, whatever the registry held. *)
Theorem clear_forgets_everything cls (ident : identifier) :
  get_data ident (clear cls).2 =
  (Raise (KeyError (str_of_identifier ident)), mkRegistry ∅ ∅).
Proof. rewrite get_data_unfold. simpl. by rewrite !lookup_empty. Qed.

(** X3. A registration under a fresh identifier leaves every other lookup
    as it was: what [get_data] returned for an identifier before, it
    returns after, unless the identifier is the alias just given. *)
Theorem register_data_keeps_lookups cls data alias (uuid4 : UUID)
    (ident : identifier) (found : Obj) :
  fresh cls alias uuid4 →
  alias ≠ Some (str_of_identifier ident) →
  get_data ident cls = (Ok found, cls) →
  get_data ident (register_data data alias uuid4 cls).2 =
  (Ok found, (register_data data alias uuid4 cls).2).
Proof.
  intros (Hd & Ha & _) Hne Hget.
  apply not_elem_of_dom in Hd. apply not_elem_of_dom in Ha.
  rewrite get_data_unfold in Hget.
  set (s := str_of_identifier ident) in *.
  assert (_aliases (register_data data alias uuid4 cls).2 !! s = _aliases cls !! s) as Hsame.
  { rewrite register_data_state. simpl.
    destruct (truthy alias); [destruct alias as [al|]|]; try done.
    rewrite lookup_insert_ne; [done|]. congruence. }
  destruct (_data cls !! default s (_aliases cls !! s)) as [o|] eqn:Hfound;
    [|by inversion Hget].
  injection Hget as ->.
  assert (uuid_text uuid4 ≠ default s (_aliases cls !! s)) as Hother by congruence.
  rewrite get_data_unfold. fold s. rewrite Hsame.
  rewrite register_data_state. cbn [_data].
  rewrite lookup_insert_ne by done. by rewrite Hfound.
Qed.

End RegistrySequences.

(** *** Sequences of calls, run *)
Section RegistrySequenceRuns.
Import Registry Registering Scenario.

Lemma recorded_alias_always_resolves_witness :
  ∃ data,
    _data (run [Register "first" (Some "Widget") uuid_a;
                Get (IdStr "Gadget");
                Register "second" (Some "Widget") uuid_a]) !! uuid_text uuid_a
    = Some data
    ∧ get_data (IdStr "Widget")
        (run [Register "first" (Some "Widget") uuid_a;
              Get (IdStr "Gadget");
              Register "second" (Some "Widget") uuid_a])
      = (Ok data,
         run [Register "first" (Some "Widget") uuid_a;
              Get (IdStr "Gadget");
              Register "second" (Some "Widget") uuid_a]).
Proof.
  apply (recorded_alias_always_resolves (Obj := string)
           [Register "first" (Some "Widget") uuid_a;
            Get (IdStr "Gadget");
            Register "second" (Some "Widget") uuid_a]
           "Widget" (uuid_text uuid_a)).
  reflexivity.
Defined.

Lemma register_data_keeps_lookups_witness :
  get_data (IdStr "Widget")
    (register_data "second" (Some "Gadget") uuid_b
       (register_data "first" (Some "Widget") uuid_a empty_registry).2).2
  = (Ok "first",
     (register_data "second" (Some "Gadget") uuid_b
        (register_data "first" (Some "Widget") uuid_a empty_registry).2).2).
Proof.
  apply (register_data_keeps_lookups (Obj := string)
           (register_data "first" (Some "Widget") uuid_a empty_registry).2
           "second" (Some "Gadget") uuid_b (IdStr "Widget") "first").
  - split_and!; [apply not_elem_of_dom; reflexivity
                | apply not_elem_of_dom; reflexivity | done].
  - done.
  - reflexivity.
Defined.

End RegistrySequenceRuns.

(** ** Registerable components *)
Section RegisterableFacts.
Import Registry Registering.
Implicit Types (cls : Registry nat) (self : Registerable) (c : Class).

Lemma register_data_pair {Obj : Type} (reg : Registry Obj) (data : Obj)
    (alias : option string) (uuid4 : UUID) :
  register_data data alias uuid4 reg =
  (Ok (uuid_text uuid4), (register_data data alias uuid4 reg).2).
Proof.
  destruct (truthy alias) eqn:Ha.
  - destruct alias as [name|]; [|done]. simpl in Ha.
    apply bool_decide_eq_true in Ha. by rewrite register_data_with_alias.
  - by rewrite register_data_without_alias.
Qed.

Lemma register_unregistered (ref : nat) self (uuid4 : UUID) cls :
  is_registered self = false →
  register ref self uuid4 cls =
  (Returned (uuid_text uuid4),
   mkRegisterable (__class__ self) (Some (uuid_text uuid4)),
   (register_data ref (Some (__name__ (__class__ self))) uuid4 cls).2).
Proof.
  intros Hno. unfold register. rewrite Hno.
  by rewrite register_data_pair.
Qed.

Lemma register_registered (ref : nat) self (uuid4 : UUID) cls (data_id : string) :
  _id self = Some data_id →
  register ref self uuid4 cls =
  (RuntimeError ("Component already registered with ID: " ++ data_id), self, cls).
Proof.
  intros Hid. unfold register, is_registered, id. rewrite Hid.
  by rewrite bool_decide_eq_true_2.
Qed.

Lemma named_registration_lookups (ref : nat) (name : string) (uuid4 : UUID) cls :
  name ≠ "" → fresh cls (Some name) uuid4 →
  get_data (IdStr (uuid_text uuid4)) (register_data ref (Some name) uuid4 cls).2
  = (Ok ref, (register_data ref (Some name) uuid4 cls).2)
  ∧ get_data (IdStr name) (register_data ref (Some name) uuid4 cls).2
    = (Ok ref, (register_data ref (Some name) uuid4 cls).2).
Proof.
  intros Hn (_ & Ha & Hself). apply not_elem_of_dom in Ha.
  rewrite register_data_with_alias by done. simpl.
  assert (name ≠ uuid_text uuid4) as Hne by congruence.
  split.
  - apply get_data_direct; simpl.
    + by rewrite lookup_insert_ne.
    + by rewrite lookup_insert_eq.
  - apply get_data_aliased with (target := uuid_text uuid4); simpl;
      by rewrite lookup_insert_eq.
Qed.

(** X4. Creating a component registers it exactly when the argument
    [should_register] says so, or, the argument being [None], when the
    class attribute does. When it is registered, the component knows its
    identifier, and the registry gives the component back for the
    identifier and for the name of its class; when not, the registry is
    untouched and the component has no identifier. *)
Theorem init_registers_on_demand c (ref : nat) (should_register : option bool)
    (uuid4 : UUID) cls :
  __name__ c ≠ "" →
  fresh cls (Some (__name__ c)) uuid4 →
  (default (should_register_by_default c) should_register = true →
   ∃ self' cls',
     init c ref should_register uuid4 cls
     = (Some (Returned (uuid_text uuid4)), self', cls')
     ∧ id self' = Some (uuid_text uuid4)
     ∧ is_registered self' = true
     ∧ get_data (IdStr (uuid_text uuid4)) cls' = (Ok ref, cls')
     ∧ get_data (IdStr (__name__ c)) cls' = (Ok ref, cls'))
  ∧ (default (should_register_by_default c) should_register = false →
     init c ref should_register uuid4 cls = (None, mkRegisterable c None, cls)
     ∧ is_registered (mkRegisterable c None) = false).
Proof.
  intros Hn Hfresh.
  assert (match should_register with
          | Some b => b
          | None => should_register_by_default c
          end = default (should_register_by_default c) should_register) as Hflag
    by by destruct should_register.
  split; intros Hon.
  - eexists _, _. split.
    + unfold init, _register_on_creation_if_needed. simpl.
      rewrite Hflag, Hon. by rewrite register_unregistered.
    + destruct (named_registration_lookups ref (__name__ c) uuid4 cls) as [H1 H2];
        [done..|]. by split_and!.
  - unfold init, _register_on_creation_if_needed. simpl. by rewrite Hflag, Hon.
Qed.

(** X5. A component registers once: [register] on a component that has no
    identifier yet returns the identifier drawn, and a second [register]
    raises [RuntimeError] naming that identifier and changes neither the
    component nor the registry. *)
Theorem register_twice_raises (ref : nat) self (u1 u2 : UUID) cls :
  is_registered self = false →
  ∃ self1 cls1,
    register ref self u1 cls = (Returned (uuid_text u1), self1, cls1)
    ∧ register ref self1 u2 cls1
      = (RuntimeError ("Component already registered with ID: " ++ uuid_text u1),
         self1, cls1).
Proof.
  intros Hno. eexists _, _. split; [by apply register_unregistered|].
  by apply register_registered.
Qed.

(** X6. Two components of one class, created one after the other: the
    class name, their common alias, leads to the second, and the first is
    still found under its own identifier. *)
Theorem class_name_leads_to_latest c (ref1 ref2 : nat) (u1 u2 : UUID) cls :
  let cls1 := (init c ref1 (Some true) u1 cls).2 in
  let cls2 := (init c ref2 (Some true) u2 cls1).2 in
  __name__ c ≠ "" →
  fresh cls (Some (__name__ c)) u1 →
  fresh cls1 (Some (__name__ c)) u2 →
  id (init c ref1 (Some true) u1 cls).1.2 = Some (uuid_text u1)
  ∧ id (init c ref2 (Some true) u2 cls1).1.2 = Some (uuid_text u2)
  ∧ get_data (IdStr (__name__ c)) cls2 = (Ok ref2, cls2)
  ∧ get_data (IdStr (uuid_text u1)) cls2 = (Ok ref1, cls2).
Proof.
  intros cls1 cls2 Hn Hf1 Hf2. subst cls2 cls1.
  unfold init, _register_on_creation_if_needed in *.
  rewrite !register_unregistered in * by done. simpl in *.
  destruct (named_registration_lookups ref1 (__name__ c) u1 cls) as [H1 _]; [done..|].
  destruct (named_registration_lookups ref2 (__name__ c) u2
              (register_data ref1 (Some (__name__ c)) u1 cls).2) as [_ H2]; [done..|].
  split_and!; [done | done | done |].
  destruct Hf1 as (_ & Ha1 & Hs1). destruct Hf2 as (Hd2 & _ & _).
  apply not_elem_of_dom in Ha1.
  rewrite !register_data_with_alias in * by done. simpl in *.
  assert (uuid_text u2 ≠ uuid_text u1) as Hne.
  { intros Heq. apply Hd2. rewrite Heq. apply elem_of_dom.
    rewrite lookup_insert_eq. eauto. }
  assert (__name__ c ≠ uuid_text u1) as Hne1 by congruence.
  apply get_data_direct; simpl.
  - by rewrite !lookup_insert_ne.
  - rewrite lookup_insert_ne by done. by rewrite lookup_insert_eq.
Qed.

End RegisterableFacts.

(** *** Components, run *)
Section RegisterableRuns.
Import Registry Registering Scenario.

Example widget_created_unregistered :
  init (mkClass "Widget" true) 1 (Some false) uuid_a (mkRegistry ∅ ∅)
  = (None, mkRegisterable (mkClass "Widget" true) None, mkRegistry ∅ ∅).
Proof. reflexivity. Qed.

Lemma init_registers_on_demand_witness :
  ∃ self' cls',
    init (mkClass "Widget" true) 1 None uuid_a (mkRegistry ∅ ∅)
    = (Some (Returned (uuid_text uuid_a)), self', cls')
    ∧ id self' = Some (uuid_text uuid_a)
    ∧ is_registered self' = true
    ∧ get_data (IdStr (uuid_text uuid_a)) cls' = (Ok 1, cls')
    ∧ get_data (IdStr "Widget") cls' = (Ok 1, cls').
Proof.
  refine (proj1 (init_registers_on_demand (mkClass "Widget" true) 1 None uuid_a
                   (mkRegistry ∅ ∅) _ _) _).
  - done.
  - by apply fresh_empty.
  - reflexivity.
Defined.

Lemma register_twice_raises_witness :
  ∃ self1 cls1,
    register 1 (mkRegisterable (mkClass "Widget" false) None) uuid_a (mkRegistry ∅ ∅)
    = (Returned (uuid_text uuid_a), self1, cls1)
    ∧ register 1 self1 uuid_b cls1
      = (RuntimeError ("Component already registered with ID: " ++ uuid_text uuid_a),
         self1, cls1).
Proof.
  apply (register_twice_raises 1 (mkRegisterable (mkClass "Widget" false) None)
           uuid_a uuid_b (mkRegistry ∅ ∅)).
  reflexivity.
Defined.

Lemma class_name_leads_to_latest_witness :
  let cls1 := (init (mkClass "Widget" true) 1 (Some true) uuid_a (mkRegistry ∅ ∅)).2 in
  let cls2 := (init (mkClass "Widget" true) 2 (Some true) uuid_b cls1).2 in
  get_data (IdStr "Widget") cls2 = (Ok 2, cls2)
  ∧ get_data (IdStr (uuid_text uuid_a)) cls2 = (Ok 1, cls2).
Proof.
  intros cls1 cls2.
  refine (let H := class_name_leads_to_latest (mkClass "Widget" true) 1 2
                     uuid_a uuid_b (mkRegistry ∅ ∅) _ _ _ in
          proj2 (proj2 H)).
  - done.
  - by apply fresh_empty.
  - split_and!; [apply not_elem_of_dom; reflexivity
                | apply not_elem_of_dom; reflexivity | done].
Defined.

End RegisterableRuns.

(** ** The configuration, continued *)
Section ConfigurationFacts.
Import Observer Ends.

Lemma without_prefix_Some (w l rest : list ascii) :
  without_prefix w l = Some rest → l = (w ++ rest)%list.
Proof.
  revert l. induction w as [|a w IH]; intros l; simpl.
  - by intros [= ->].
  - destruct l as [|b l]; [done|]. case_decide as Hab; [|done].
    subst b. by intros ->%IH.
Qed.

Lemma without_prefix_None (w l : list ascii) :
  without_prefix w l = None → ¬ w `prefix_of` l.
Proof.
  revert l. induction w as [|a w IH]; intros l; simpl; [done|].
  destruct l as [|b l]; [by intros _ [k ?]|].
  case_decide as Hab.
  - subst b. intros Hn [k [= Hk]]. apply (IH l Hn). by exists k.
  - intros _ [k [= Hk _]]. done.
Qed.

Lemma after_code_Some (codes : list (list ascii)) (l rest : list ascii) :
  after_code codes l = Some rest → ∃ w, w ∈ codes ∧ l = (w ++ rest)%list.
Proof.
  unfold after_code. intros Hh%head_Some_elem_of.
  apply list_elem_of_omap in Hh as (w & Hw & Hrest).
  exists w. split; [done|]. by apply without_prefix_Some.
Qed.

Lemma after_code_None (codes : list (list ascii)) (l w : list ascii) :
  after_code codes l = None → w ∈ codes → ¬ w `prefix_of` l.
Proof.
  unfold after_code. intros Hh%head_None Hw.
  destruct (without_prefix w l) as [rest|] eqn:Hwl; [|by apply without_prefix_None].
  assert (rest ∈ omap (λ w, without_prefix w l) codes) as Hin
    by (apply list_elem_of_omap; eauto).
  rewrite Hh in Hin. by apply elem_of_nil in Hin.
Qed.

Lemma drop_codes_clean (codes : list (list ascii)) (fuel : nat) (l : list ascii) :
  Forall (λ w, w ≠ []) codes → (length l ≤ fuel)%nat →
  after_code codes (drop_codes codes fuel l) = None.
Proof.
  intros Hcodes. revert l. induction fuel as [|fuel IH]; intros l Hlen; simpl.
  - destruct l; [|simpl in Hlen; lia].
    destruct (after_code codes []) as [rest|] eqn:Ha; [|done].
    apply after_code_Some in Ha as (w & Hw & Hl).
    symmetry in Hl. apply app_eq_nil in Hl as [-> _].
    by apply (proj1 (Forall_forall _ _) Hcodes) in Hw.
  - destruct (after_code codes l) as [rest|] eqn:Ha; [|done].
    apply IH. apply after_code_Some in Ha as (w & Hw & ->).
    apply (proj1 (Forall_forall _ _) Hcodes) in Hw.
    rewrite length_app in Hlen. destruct w; [done|]. simpl in Hlen. lia.
Qed.

Lemma drop_codes_suffix (codes : list (list ascii)) (fuel : nat) (l : list ascii) :
  drop_codes codes fuel l `suffix_of` l.
Proof.
  revert l. induction fuel as [|fuel IH]; intros l; simpl; [done|].
  destruct (after_code codes l) as [rest|] eqn:Ha; [|done].
  apply after_code_Some in Ha as (w & _ & ->).
  etrans; [apply IH|]. by apply suffix_app_r.
Qed.

Lemma space_codes_nonempty :
  Forall (λ w, w ≠ []) space_codes ∧ Forall (λ w, w ≠ []) space_codes_reversed.
Proof. split; vm_compute; by repeat constructor. Qed.

Lemma lstrip_bytes_clean (l w : list ascii) :
  w ∈ space_codes → ¬ w `prefix_of` lstrip_bytes l.
Proof.
  intros Hw. apply after_code_None with (codes := space_codes); [|done].
  by apply drop_codes_clean; [apply space_codes_nonempty|].
Qed.

Lemma rstrip_bytes_prefix (l : list ascii) : rstrip_bytes l `prefix_of` l.
Proof.
  unfold rstrip_bytes. apply prefix_suffix_reverse.
  rewrite reverse_involutive. apply drop_codes_suffix.
Qed.

Lemma rstrip_bytes_clean (l w : list ascii) :
  w ∈ space_codes → ¬ w `suffix_of` rstrip_bytes l.
Proof.
  intros Hw Hsuf. unfold rstrip_bytes in Hsuf.
  apply suffix_prefix_reverse in Hsuf. rewrite reverse_involutive in Hsuf.
  revert Hsuf. apply after_code_None with (codes := space_codes_reversed).
  - apply drop_codes_clean; [apply space_codes_nonempty|].
    by rewrite length_reverse.
  - by apply list_elem_of_fmap_2.
Qed.

Lemma strip_trimmed (s : string) : trimmed (strip s).
Proof.
  intros cp Hcp.
  assert (utf8 cp ∈ space_codes) as Hw by by apply list_elem_of_fmap_2.
  unfold strip. rewrite list_ascii_of_string_of_list_ascii. split.
  - intros Hpre. apply (lstrip_bytes_clean (list_ascii_of_string s) (utf8 cp) Hw).
    etrans; [exact Hpre | apply rstrip_bytes_prefix].
  - by apply rstrip_bytes_clean.
Qed.

(** White space beyond ASCII is stripped too: here U+00A0 and U+2003
    before the pattern, U+3000, U+0085 and a space after it; inside a
    pattern it stays. *)
Example strip_unicode_space :
  strip "  *.py　 " = "*.py"
  ∧ strip " " = ""
  ∧ strip "a b" = "a b".
Proof. by vm_compute. Qed.

(** What is stripped is white space only: the pattern kept is a part of
    the pattern given. *)
Lemma strip_keeps_inside (s : string) :
  ∃ before after,
    list_ascii_of_string s
    = (before ++ list_ascii_of_string (strip s) ++ after)%list.
Proof.
  unfold strip. rewrite list_ascii_of_string_of_list_ascii.
  destruct (rstrip_bytes_prefix (lstrip_bytes (list_ascii_of_string s))) as [after Ha].
  destruct (drop_codes_suffix space_codes (length (list_ascii_of_string s))
              (list_ascii_of_string s)) as [before Hb].
  exists before, after. rewrite Hb at 1. unfold lstrip_bytes in Ha. by rewrite Ha at 1.
Qed.

(** X7. The patterns a configuration keeps have no white space character,
    of those that [str.strip] knows, at either end; there are as many of
    them as were given, and each is a part of the pattern it comes from. *)
Theorem patterns_are_trimmed (arg : directories_arg) (incl excl : list string)
    (lock : option string) :
  Forall trimmed (include_patterns (init arg incl excl lock))
  ∧ Forall trimmed (exclude_patterns (init arg incl excl lock))
  ∧ length (include_patterns (init arg incl excl lock)) = length incl
  ∧ length (exclude_patterns (init arg incl excl lock)) = length excl
  ∧ Forall2 (λ given kept, ∃ before after,
               list_ascii_of_string given
               = (before ++ list_ascii_of_string kept ++ after)%list)
            (incl ++ excl)
            (include_patterns (init arg incl excl lock)
             ++ exclude_patterns (init arg incl excl lock)).
Proof.
  assert (∀ l, Forall trimmed (map strip l)) as Hall.
  { intros l. apply Forall_forall. intros p (q & -> & _)%list_elem_of_fmap.
    apply strip_trimmed. }
  unfold init; simpl. split_and!; [apply Hall | apply Hall | | |];
    [apply length_map | apply length_map |].
  rewrite <- map_app. generalize (incl ++ excl)%list. intros l.
  induction l as [|p l IH]; simpl; constructor; [apply strip_keeps_inside | done].
Qed.

(** X8. The directories of a configuration are in normal form: a
    configuration built from the directories of another watches the same
    directories. *)
Theorem directories_stay_normalized (arg : directories_arg)
    (incl excl incl' excl' : list string) (lock lock' : option string) :
  directories_to_observe
    (init (Many (map PPath (directories_to_observe (init arg incl excl lock))))
          incl' excl' lock')
  = directories_to_observe (init arg incl excl lock).
Proof.
  rewrite !init_directories.
  generalize (match arg with One x => [x] | Many l => l end). intros l. simpl.
  induction l as [|x l IH]; [done|]. simpl.
  rewrite parse_to_str by apply parse_wf. by rewrite IH.
Qed.

End ConfigurationFacts.

(** ** The observer and the processor over a stream *)
Section StreamFacts.
Import Observer Processor Scenario.
Implicit Types (self : FileSystemChangeProcessor) (a : Arrival) (stream : list Arrival).

Lemma observe_stopped (pre post : list Arrival) a :
  stop_requested a = true → observe (pre ++ a :: post) = observe pre.
Proof.
  intros Ha. induction pre as [|x pre IH]; simpl.
  - by rewrite Ha.
  - destruct (stop_requested x); [done|]. by rewrite IH.
Qed.

Lemma elem_of_observe stream a :
  a ∈ observe stream → a ∈ stream ∧ stop_requested a = false.
Proof.
  induction stream as [|x stream IH]; simpl; [by intros ?%elem_of_nil|].
  destruct (stop_requested x) eqn:Hx; [by intros ?%elem_of_nil|].
  intros [->|Hin]%elem_of_cons.
  - split; [left|done].
  - destruct (IH Hin). split; [by right|done].
Qed.

Lemma length_observe stream : (length (observe stream) ≤ length stream)%nat.
Proof.
  induction stream as [|x stream IH]; simpl; [done|].
  destruct (stop_requested x); simpl; lia.
Qed.

Lemma length_process_batches self (l : list Arrival) :
  (length (concat (map (process_batch self) l)) ≤ length l)%nat.
Proof.
  induction l as [|x l IH]; simpl; [done|].
  rewrite length_app. unfold process_batch at 1. case_decide; simpl; lia.
Qed.





(** X10. Once a batch finds the observer stopped, that batch and all
    later ones are dropped: the calls made are those of the batches before. *)
Theorem nothing_processed_after_stop self (pre post : list Arrival) a :
  stop_requested a = true →
  process_changes self (pre ++ a :: post) = process_changes self pre.
Proof. intros Ha. unfold process_changes. by rewrite observe_stopped. Qed.

(** X11. Without a lock file configured, the retained events of a batch
    are exactly those the responder accepts, whatever is in the file
    system. *)
Theorem no_lock_configured_keeps_accepted self a :
  processing_lock_file (config (observer self)) = None →
  ∀ e, e ∈ changes_to_process self a ↔
       e ∈ changes a
       ∧ _should_process_change (file_system_change_responder self) e.2 = true.
Proof.
  intros Hl e. rewrite elem_of_changes_to_process, retains_spec, Hl.
  rewrite is_lock_file_present_unset by (by rewrite Hl).
  split; [tauto|]. intros [? ?]. by split_and!.
Qed.

Lemma to_str_nonempty (p : Path) : to_str p ≠ "".
Proof. unfold to_str. simpl. by case_decide. Qed.

Lemma joinpath_rooted (directory q : Path) :
  wf q → root q ≠ "" → joinpath directory (to_str q) = q.
Proof.
  intros Hq Hr. unfold joinpath. rewrite parse_to_str by done. simpl.
  by rewrite decide_False.
Qed.

(** X12. When the lock file is configured by an absolute path, the text
    of a rooted path [q], the presence test looks at [q] itself, whichever
    directories are watched, as long as there is one; and an event on
    exactly that path is never retained. *)
Theorem absolute_lock_file self a (fs : FS) (q : Path) :
  wf q → root q ≠ "" →
  processing_lock_file (config (observer self)) = Some (to_str q) →
  is_lock_file_present (observer self) fs
  = (if _directories (observer self) is [] then false else fs q)
  ∧ ∀ change, (change, to_str q) ∉ changes_to_process self a.
Proof.
  intros Hq Hr Hl. split.
  - rewrite (is_lock_file_present_name _ _ (to_str q)) by (done || apply to_str_nonempty).
    induction (_directories (observer self)) as [|d l IH]; [done|].
    simpl. rewrite joinpath_rooted by done.
    destruct l; [by rewrite orb_false_r|]. rewrite IH. by destruct (fs q).
  - intros change. by apply configured_string_excluded.
Qed.

End StreamFacts.

(** *** Streams, run *)
Section StreamRuns.
Import Observer Processor Scenario.

Lemma nothing_processed_after_stop_witness :
  process_changes (Processor.new proj_config accept_all)
    ([arrival unlocked_fs] ++ mkArrival true batch (λ _, unlocked_fs)
                                :: [arrival unlocked_fs])
  = process_changes (Processor.new proj_config accept_all) [arrival unlocked_fs].
Proof.
  apply (nothing_processed_after_stop (Processor.new proj_config accept_all)
           [arrival unlocked_fs] [arrival unlocked_fs]
           (mkArrival true batch (λ _, unlocked_fs))).
  reflexivity.
Defined.

Lemma no_lock_configured_keeps_accepted_witness :
  a_txt ∈ changes_to_process
            (Processor.new (Observer.init (One (PStr "/tmp/proj")) [] [] None)
                           accept_non_lock)
            (arrival locked_fs) ↔
  a_txt ∈ changes (arrival locked_fs)
  ∧ _should_process_change accept_non_lock a_txt.2 = true.
Proof.
  apply (no_lock_configured_keeps_accepted
           (Processor.new (Observer.init (One (PStr "/tmp/proj")) [] [] None)
                          accept_non_lock)
           (arrival locked_fs)).
  reflexivity.
Defined.

Lemma absolute_lock_file_witness :
  is_lock_file_present
    (observer (Processor.new
                 (Observer.init (One (PStr "/tmp/proj")) [] [] (Some "/tmp/proj/LOCK"))
                 accept_all))
    locked_fs
  = locked_fs (mkPath "/" ["tmp"; "proj"; "LOCK"])
  ∧ ∀ change,
      (change, "/tmp/proj/LOCK") ∉
      changes_to_process
        (Processor.new
           (Observer.init (One (PStr "/tmp/proj")) [] [] (Some "/tmp/proj/LOCK"))
           accept_all)
        (arrival unlocked_fs).
Proof.
  apply (absolute_lock_file
           (Processor.new
              (Observer.init (One (PStr "/tmp/proj")) [] [] (Some "/tmp/proj/LOCK"))
              accept_all)
           (arrival unlocked_fs) locked_fs (mkPath "/" ["tmp"; "proj"; "LOCK"])).
  - split; [by right; left|]. by repeat constructor.
  - done.
  - reflexivity.
Defined.

End StreamRuns.

(** ** The other file utilities *)
Section UtilitiesFacts.
Import Filesystem Utilities.
Context {World : Type}.
Variable path_exists : Path → World → bool.
Variable is_file : Path → World → bool.
Variable mkdir_parents : Path → World → result unit * World.
Variable copy2 : Path → Path → World → result unit * World.
Variable rmtree : path_like → bool → World → result unit * World.
Variable copytree :
  path_like → path_like → option (list string) → bool → World → result unit * World.
Variable rename : Path → Path → World → result unit * World.
Implicit Types (w : World) (log : list log_line) (e : exn).

Ltac run_action :=
  unfold copy_file_or_directory, create_directory_safely, rename_subdirectory,
    copy_directory, remove_directory, ensure_directory_exists, Utilities.copy_file,
    try_except, try_except_OSError, Utilities.bind, Utilities.ret, Utilities.raise,
    Utilities.prim, Utilities.ask, Utilities.log;
  cbn [fst snd negb Path_of str_of].

Lemma remove_directory_raising (directory_path : path_like) w w1 log e :
  rmtree directory_path false w = (Raise e, w1) →
  remove_directory rmtree directory_path false (w, log)
  = (Raise e, (w1, (log ++ [RemoveDirectoryError (str_of directory_path) e])%list)).
Proof. intros Hr. run_action. by rewrite Hr. Qed.

Lemma remove_directory_returning (directory_path : path_like) (ignore : bool)
    w w1 log (u : unit) :
  rmtree directory_path ignore w = (Ok u, w1) →
  remove_directory rmtree directory_path ignore (w, log) = (Ok u, (w1, log)).
Proof. intros Hr. run_action. by rewrite Hr. Qed.

(** X13. With [ignore_errors] true, [remove_directory] never raises and
    never logs, whatever [shutil.rmtree] does: an exception of the removal
    is dropped. *)
Theorem remove_directory_ignoring_errors (directory_path : path_like) w log :
  remove_directory rmtree directory_path true (w, log)
  = (Ok tt, ((rmtree directory_path true w).2, log)).
Proof.
  run_action. by destruct (rmtree directory_path true w) as [[[]|e] w1].
Qed.

(** X14. [copy_file_or_directory] checks the source first: when it does
    not exist, [FileNotFoundError] is raised with nothing logged and
    nothing touched. For a source that is a file, an existing destination
    with [overwrite] false gives the [FileExistsError] of [copy_file],
    logged once, the file system untouched. *)
Theorem copy_file_or_directory_source_checks (source destination : path_like)
    (overwrite : bool) (ignore_patterns : option (list string)) w log :
  let src := Path_of source in
  let dst := Path_of destination in
  (path_exists src w = false →
   copy_file_or_directory path_exists is_file mkdir_parents copy2 copytree
     source destination overwrite ignore_patterns (w, log)
   = (Raise (FileNotFoundError ("Source does not exist: " ++ to_str src)), (w, log)))
  ∧ (path_exists src w = true → is_file src w = true →
     path_exists dst w = true → overwrite = false →
     copy_file_or_directory path_exists is_file mkdir_parents copy2 copytree
       source destination overwrite ignore_patterns (w, log)
     = (Raise (FileExistsError ("Destination file already exists: " ++ to_str dst)),
        (w, (log ++ [CopyFileError
                       (mkLogEntry (to_str src) (to_str dst)
                          (FileExistsError
                             ("Destination file already exists: " ++ to_str dst)))])%list))).
Proof.
  intros src dst. subst src dst. split.
  - intros Hs. run_action. by rewrite Hs.
  - intros Hs Hf Hd ->. run_action. rewrite Hs. cbn [negb fst snd].
    rewrite Hf. unfold Filesystem.copy_file, copy_file_body. cbn [Path_of fst snd].
    by rewrite Hs, Hd.
Qed.

(** X15. For a source that is not a file, [copy_file_or_directory] is
    [shutil.copytree] into the destination with [dirs_exist_ok] true: the
    argument [overwrite] plays no part, so an existing destination is
    merged into and never refused. The patterns are passed on when there
    are some; a failure is logged once and raised again. *)
Theorem copy_file_or_directory_on_directory (source destination : path_like)
    (overwrite : bool) (ignore_patterns : option (list string)) w log :
  path_exists (Path_of source) w = true →
  is_file (Path_of source) w = false →
  copy_file_or_directory path_exists is_file mkdir_parents copy2 copytree
    source destination overwrite ignore_patterns (w, log)
  = match copytree (PPath (Path_of source)) destination
            (match ignore_patterns with
             | Some (pattern :: patterns) => Some (pattern :: patterns)
             | Some [] | None => None
             end) true w with
    | (Ok _, w1) => (Ok tt, (w1, log))
    | (Raise e, w1) =>
        (Raise e,
         (w1, (log ++ [CopyDirectoryError (to_str (Path_of source))
                                          (str_of destination) e])%list))
    end.
Proof.
  intros Hs Hf. run_action. rewrite Hs. cbn [negb fst snd]. rewrite Hf.
  destruct ignore_patterns as [[|pattern patterns]|]; cbn [fst snd];
    by destruct (copytree _ _ _ _ w) as [[[]|e] w1].
Qed.

(** X16. [create_directory_safely]: an existing path with [overwrite]
    false gives [FileExistsError] and nothing is touched; with [overwrite]
    true the path is removed first, and when the removal fails its
    exception is logged and raised and nothing is created; otherwise the
    directory is made and the path returned. *)
Theorem create_directory_safely_outcomes (directory_path : path_like)
    (overwrite : bool) w log :
  let p := Path_of directory_path in
  let made w0 :=
    match mkdir_parents p w0 with
    | (Ok _, w1) => (Ok p, (w1, log))
    | (Raise e, w1) => (Raise e, (w1, log))
    end in
  (path_exists p w = true → overwrite = false →
   create_directory_safely path_exists mkdir_parents rmtree directory_path overwrite
     (w, log)
   = (Raise (FileExistsError ("Directory already exists: " ++ to_str p)), (w, log)))
  ∧ (path_exists p w = true → overwrite = true →
     create_directory_safely path_exists mkdir_parents rmtree directory_path overwrite
       (w, log)
     = match rmtree (PPath p) false w with
       | (Ok _, w1) => made w1
       | (Raise e, w1) =>
           (Raise e, (w1, (log ++ [RemoveDirectoryError (to_str p) e])%list))
       end)
  ∧ (path_exists p w = false →
     create_directory_safely path_exists mkdir_parents rmtree directory_path overwrite
       (w, log)
     = made w).
Proof.
  intros p made. subst p made. split_and!.
  - intros He ->. run_action. by rewrite He.
  - intros He ->. run_action. rewrite He. cbn [negb fst snd].
    destruct (rmtree _ false w) as [[[]|e] w1]; cbn [fst snd]; [|done].
    by destruct (mkdir_parents _ w1) as [[[]|e] w2].
  - intros He. run_action. rewrite He. cbn [fst snd].
    by destruct (mkdir_parents _ w) as [[[]|e] w2].
Qed.

(** X17. [rename_subdirectory] checks before it acts: a missing source
    gives [FileNotFoundError], whatever there is at the destination; an
    existing destination with [overwrite] false gives [FileExistsError]. In
    both cases nothing is touched and nothing is logged. *)
Theorem rename_subdirectory_checks (parent_directory : path_like)
    (old_name new_name : string) (overwrite : bool) w log :
  let old_path := joinpath (Path_of parent_directory) old_name in
  let new_path := joinpath (Path_of parent_directory) new_name in
  (path_exists old_path w = false →
   rename_subdirectory path_exists rmtree copytree rename
     parent_directory old_name new_name overwrite (w, log)
   = (Raise (FileNotFoundError
               ("Source directory does not exist: " ++ to_str old_path)), (w, log)))
  ∧ (path_exists old_path w = true → path_exists new_path w = true →
     overwrite = false →
     rename_subdirectory path_exists rmtree copytree rename
       parent_directory old_name new_name overwrite (w, log)
     = (Raise (FileExistsError
                 ("Destination directory already exists: " ++ to_str new_path)),
        (w, log))).
Proof.
  intros old_path new_path. subst old_path new_path. split.
  - intros Ho. run_action. by rewrite Ho.
  - intros Ho Hn ->. run_action. rewrite Ho. cbn [negb fst snd]. by rewrite Hn.
Qed.

(** X18. With the source there and the destination free, a rename that
    succeeds is all that happens: nothing is copied, removed or logged.
    A rename that fails with an exception that is no [OSError] raises it
    as it is, without the copy being tried. *)
Theorem rename_subdirectory_atomic (parent_directory : path_like)
    (old_name new_name : string) (overwrite : bool) w log :
  let old_path := joinpath (Path_of parent_directory) old_name in
  let new_path := joinpath (Path_of parent_directory) new_name in
  path_exists old_path w = true →
  path_exists new_path w = false →
  (∀ u w1, rename old_path new_path w = (Ok u, w1) →
     rename_subdirectory path_exists rmtree copytree rename
       parent_directory old_name new_name overwrite (w, log)
     = (Ok u, (w1, log)))
  ∧ (∀ e w1, rename old_path new_path w = (Raise e, w1) → is_OSError e = false →
     rename_subdirectory path_exists rmtree copytree rename
       parent_directory old_name new_name overwrite (w, log)
     = (Raise e, (w1, log))).
Proof.
  intros old_path new_path Ho Hn. subst old_path new_path. split.
  - intros u w1 Hr. run_action. rewrite Ho. cbn [negb fst snd]. rewrite Hn.
    cbn [fst snd]. by rewrite Hr.
  - intros e w1 Hr He. run_action. rewrite Ho. cbn [negb fst snd]. rewrite Hn.
    cbn [fst snd]. rewrite Hr. by rewrite He.
Qed.

(** X19. When the rename fails with an [OSError], the directory is copied
    and the source removed instead. If both succeed the call returns and
    the error of the rename is forgotten. If the copy fails, it is the
    exception of the copy that is raised, after the destination, when the
    failed copy left one, has been removed again; a failure of that
    removal is logged by [remove_directory] and otherwise ignored. *)
Theorem rename_subdirectory_fallback (parent_directory : path_like)
    (old_name new_name : string) (overwrite : bool) w w1 log (e0 : exn) :
  let old_path := joinpath (Path_of parent_directory) old_name in
  let new_path := joinpath (Path_of parent_directory) new_name in
  path_exists old_path w = true →
  path_exists new_path w = false →
  rename old_path new_path w = (Raise e0, w1) →
  is_OSError e0 = true →
  (∀ u u' w2 w3,
     copytree (PPath old_path) (PPath new_path) None false w1 = (Ok u, w2) →
     rmtree (PPath old_path) false w2 = (Ok u', w3) →
     rename_subdirectory path_exists rmtree copytree rename
       parent_directory old_name new_name overwrite (w, log)
     = (Ok u', (w3, log)))
  ∧ (∀ e1 w2,
     copytree (PPath old_path) (PPath new_path) None false w1 = (Raise e1, w2) →
     rename_subdirectory path_exists rmtree copytree rename
       parent_directory old_name new_name overwrite (w, log)
     = if path_exists new_path w2 then
         match rmtree (PPath new_path) false w2 with
         | (Ok _, w3) =>
             (Raise e1,
              (w3, (log ++ [RenameError (to_str old_path) (to_str new_path) e1])%list))
         | (Raise e2, w3) =>
             (Raise e1,
              (w3, ((log ++ [RemoveDirectoryError (to_str new_path) e2])
                    ++ [RenameError (to_str old_path) (to_str new_path) e1])%list))
         end
       else
         (Raise e1,
          (w2, (log ++ [RenameError (to_str old_path) (to_str new_path) e1])%list))).
Proof.
  intros old_path new_path Ho Hn Hr He. subst old_path new_path. split.
  - intros u u' w2 w3 Hc Hrm. run_action. rewrite Ho. cbn [negb fst snd].
    rewrite Hn. cbn [fst snd]. rewrite Hr, He. cbn [fst snd].
    rewrite Hc. cbn [fst snd]. by rewrite Hrm.
  - intros e1 w2 Hc. run_action. rewrite Ho. cbn [negb fst snd].
    rewrite Hn. cbn [fst snd]. rewrite Hr, He. cbn [fst snd].
    rewrite Hc. cbn [fst snd].
    destruct (path_exists _ w2); cbn [fst snd]; [|done].
    by destruct (rmtree _ false w2) as [[[]|e2] w3].
Qed.

(** X20. In that fallback, when the copy has succeeded and the removal of
    the source then fails, it is the exception of that removal that is
    raised, logged by [remove_directory] and by [rename_subdirectory].
    Before that the new copy, if it is there, is removed again; when this
    removal fails too, its exception is logged by [remove_directory] and
    dropped, and the copy stays. *)
Theorem rename_subdirectory_undoes_copy (parent_directory : path_like)
    (old_name new_name : string) (overwrite : bool)
    w w1 w2 w3 log (e0 e2 : exn) (u : unit) :
  let old_path := joinpath (Path_of parent_directory) old_name in
  let new_path := joinpath (Path_of parent_directory) new_name in
  let failed := (log ++ [RemoveDirectoryError (to_str old_path) e2])%list in
  path_exists old_path w = true →
  path_exists new_path w = false →
  rename old_path new_path w = (Raise e0, w1) →
  is_OSError e0 = true →
  copytree (PPath old_path) (PPath new_path) None false w1 = (Ok u, w2) →
  rmtree (PPath old_path) false w2 = (Raise e2, w3) →
  rename_subdirectory path_exists rmtree copytree rename
    parent_directory old_name new_name overwrite (w, log)
  = if path_exists new_path w3 then
      match rmtree (PPath new_path) false w3 with
      | (Ok _, w4) =>
          (Raise e2,
           (w4, (failed ++ [RenameError (to_str old_path) (to_str new_path) e2])%list))
      | (Raise e3, w4) =>
          (Raise e2,
           (w4, ((failed ++ [RemoveDirectoryError (to_str new_path) e3])
                 ++ [RenameError (to_str old_path) (to_str new_path) e2])%list))
      end
    else
      (Raise e2,
       (w3, (failed ++ [RenameError (to_str old_path) (to_str new_path) e2])%list)).
Proof.
  intros old_path new_path failed Ho Hn Hr He Hc Hrm. subst old_path new_path failed.
  run_action. rewrite Ho. cbn [negb fst snd].
  rewrite Hn. cbn [fst snd]. rewrite Hr, He. cbn [fst snd].
  rewrite Hc. cbn [fst snd]. rewrite Hrm. cbn [fst snd].
  destruct (path_exists _ w3); cbn [fst snd]; [|done].
  by destruct (rmtree _ false w3) as [[[]|e3] w4].
Qed.

End UtilitiesFacts.

(** *** The file utilities on the small file system *)
Section UtilitiesRuns.
Import Filesystem Utilities.

Example remove_missing_directory_quietly :
  remove_directory tree_rmtree (PStr "/srv/none") true (srv, []) = (Ok tt, (srv, []))
  ∧ (remove_directory tree_rmtree (PStr "/srv/none") false (srv, [])).1
    = Raise (FileNotFoundError "/srv/none").
Proof. by vm_compute. Qed.

Example copy_existing_file_refused :
  (copy_file_or_directory tree_exists tree_is_file tree_mkdir tree_copy2 tree_copytree
     (PStr "/srv/a.txt") (PStr "/srv/a.txt") false None (srv, [])).1
  = Raise (FileExistsError "Destination file already exists: /srv/a.txt").
Proof. by vm_compute. Qed.

Example create_over_existing :
  create_directory_safely tree_exists tree_mkdir tree_rmtree (PStr "/srv/old/") true
    (srv, [])
  = (Ok (mkPath "/" ["srv"; "old"]), (srv, []))
  ∧ (create_directory_safely tree_exists tree_mkdir tree_rmtree (PStr "/srv/old") false
       (srv, [])).1
    = Raise (FileExistsError "Directory already exists: /srv/old").
Proof. by vm_compute. Qed.

Lemma copy_file_or_directory_on_directory_witness :
  copy_file_or_directory tree_exists tree_is_file tree_mkdir tree_copy2 tree_copytree
    (PStr "/srv/old") (PStr "/srv") false (Some []) (srv, [])
  = (Ok tt, (srv, [])).
Proof.
  rewrite (copy_file_or_directory_on_directory
             tree_exists tree_is_file tree_mkdir tree_copy2 tree_copytree
             (PStr "/srv/old") (PStr "/srv") false (Some []) srv [])
    by (vm_compute; reflexivity).
  vm_compute. reflexivity.
Defined.

Lemma rename_subdirectory_atomic_witness :
  rename_subdirectory tree_exists tree_rmtree tree_copytree (tree_rename true)
    (PStr "/srv") "old" "new" true (srv, [])
  = (Ok tt, (<["/srv/new" := false]> (delete "/srv/old" srv), [])).
Proof.
  apply (proj1 (rename_subdirectory_atomic
                  tree_exists tree_rmtree tree_copytree (tree_rename true)
                  (PStr "/srv") "old" "new" true srv []
                  ltac:(vm_compute; reflexivity) ltac:(vm_compute; reflexivity))).
  vm_compute. reflexivity.
Defined.

Lemma rename_subdirectory_fallback_witness :
  rename_subdirectory tree_exists tree_rmtree tree_copytree (tree_rename false)
    (PStr "/srv") "old" "new" true (srv, [])
  = (Ok tt, (delete "/srv/old" (<["/srv/new" := false]> srv), [])).
Proof.
  apply (proj1 (rename_subdirectory_fallback
                  tree_exists tree_rmtree tree_copytree (tree_rename false)
                  (PStr "/srv") "old" "new" true srv srv []
                  (OSError "Invalid cross-device link")
                  ltac:(vm_compute; reflexivity) ltac:(vm_compute; reflexivity)
                  ltac:(vm_compute; reflexivity) ltac:(reflexivity))
           tt tt (<["/srv/new" := false]> srv)).
  - vm_compute. reflexivity.
  - vm_compute. reflexivity.
Defined.

Lemma rename_subdirectory_undoes_copy_witness :
  rename_subdirectory tree_exists (tree_rmtree_guarded "/srv/old") tree_copytree
    (tree_rename false) (PStr "/srv") "old" "new" true (srv, [])
  = (Raise (OSError "Device or resource busy"),
     (srv,
      [RemoveDirectoryError "/srv/old" (OSError "Device or resource busy");
       RenameError "/srv/old" "/srv/new" (OSError "Device or resource busy")])).
Proof.
  rewrite (rename_subdirectory_undoes_copy
             tree_exists (tree_rmtree_guarded "/srv/old") tree_copytree
             (tree_rename false) (PStr "/srv") "old" "new" true
             srv srv (<["/srv/new" := false]> srv) (<["/srv/new" := false]> srv) []
             (OSError "Invalid cross-device link") (OSError "Device or resource busy")
             tt)
    by (vm_compute; reflexivity).
  vm_compute. reflexivity.
Defined.

(** When no removal goes through, the copy stays and three lines are
    logged. *)
Example rename_leaves_copy_when_nothing_can_be_removed :
  rename_subdirectory tree_exists
    (λ _ _ w, (Raise (OSError "Device or resource busy"), w))
    tree_copytree (tree_rename false) (PStr "/srv") "old" "new" true (srv, [])
  = (Raise (OSError "Device or resource busy"),
     (<["/srv/new" := false]> srv,
      [RemoveDirectoryError "/srv/old" (OSError "Device or resource busy");
       RemoveDirectoryError "/srv/new" (OSError "Device or resource busy");
       RenameError "/srv/old" "/srv/new" (OSError "Device or resource busy")])).
Proof. vm_compute. reflexivity. Qed.

End UtilitiesRuns.

(** ** The size of a directory *)
Section SizesFacts.
Import Sizes.
Context {World : Type}.
Variable walk : path_like → World → list (string * list string * list string).
Variable getsize : string → World → result nat.

Lemma add_sizes_all (size : string → nat) (files : list string) (w : World)
    (total : nat) :
  Forall (λ f, getsize f w = Ok (size f)) files →
  add_sizes getsize files w total = Ok (total + sum_list (map size files))%nat.
Proof.
  intros Hall. revert total.
  induction Hall as [|f files Hf _ IH]; intros total; simpl.
  - by rewrite Nat.add_0_r.
  - rewrite Hf, IH. by rewrite Nat.add_assoc.
Qed.

Lemma add_sizes_first_failure (size : string → nat) (before after : list string)
    (f : string) (e : exn) (w : World) (total : nat) :
  Forall (λ g, getsize g w = Ok (size g)) before →
  getsize f w = Raise e →
  add_sizes getsize (before ++ f :: after) w total = Raise e.
Proof.
  intros Hall Hf. revert total.
  induction Hall as [|g before Hg _ IH]; intros total; simpl.
  - by rewrite Hf.
  - by rewrite Hg, IH.
Qed.

(** X21. [get_directory_size] returns the sum of the sizes of all the
    files that the walk lists, each under its directory, when every size
    can be had, and so 0 when the walk lists none. When the size of a file
    cannot be had, the exception for the first such file is logged and
    raised, and the files after it are not looked at. *)
Theorem get_directory_size_sums (size : string → nat) (directory_path : path_like)
    (w : World) (log : list size_error) :
  (Forall (λ f, getsize f w = Ok (size f)) (files_walked walk directory_path w) →
   get_directory_size walk getsize directory_path (w, log)
   = (Ok (sum_list (map size (files_walked walk directory_path w))), (w, log)))
  ∧ (∀ before f after e,
       files_walked walk directory_path w = (before ++ f :: after)%list →
       Forall (λ g, getsize g w = Ok (size g)) before →
       getsize f w = Raise e →
       get_directory_size walk getsize directory_path (w, log)
       = (Raise e, (w, (log ++ [mkSizeError (str_of directory_path) e])%list))).
Proof.
  split.
  - intros Hall. unfold get_directory_size.
    by rewrite (add_sizes_all size) by done.
  - intros before f after e Hfiles Hbefore Hf. unfold get_directory_size.
    rewrite Hfiles. by rewrite (add_sizes_first_failure size before after f e) by done.
Qed.

End SizesFacts.

(** *** Sizes, run *)
Section SizesRuns.
Import Sizes.

Example srv_files :
  files_walked srv_walk (PStr "/srv") tt
  = ["/srv/a.txt"; "/srv/b.txt"; "/srv/sub/c.txt"].
Proof. reflexivity. Qed.

Lemma get_directory_size_sums_witness :
  get_directory_size srv_walk srv_getsize (PStr "/srv") (tt, []) = (Ok 42, (tt, []))
  ∧ get_directory_size srv_walk srv_getsize (PStr "/tmp") (tt, [])
    = (Raise (FileNotFoundError "/tmp/a.txt"),
       (tt, [mkSizeError "/tmp" (FileNotFoundError "/tmp/a.txt")])).
Proof.
  split.
  - apply (proj1 (get_directory_size_sums srv_walk srv_getsize
                    (λ f, match srv_getsize f tt with Ok n => n | Raise _ => 0 end)
                    (PStr "/srv") tt [])).
    by repeat constructor.
  - apply (proj2 (get_directory_size_sums srv_walk srv_getsize (λ _, 0)
                    (PStr "/tmp") tt [])
             [] "/tmp/a.txt" ["/tmp/b.txt"; "/tmp/sub/c.txt"]
             (FileNotFoundError "/tmp/a.txt")).
    + reflexivity.
    + constructor.
    + reflexivity.
Defined.

End SizesRuns.
